(** * html-to-shopify-richtext: the converter of
      [shopify_richtext_converter/converter.py], embedded and verified.

    The development follows the module top to bottom: Python strings and
    the few [str] methods the converter calls, the BeautifulSoup parse tree
    it walks, the dictionaries it builds, then [_text_node],
    [_parse_inline] and [html_to_richtext], and finally the properties. *)

From Stdlib Require Import ZArith NArith String Ascii List Lia.
From stdpp Require Import base option list gmap.
Import ListNotations.

Set Warnings "-register-all".
Local Open Scope N_scope.

(* ===================================================================== *)
(** * Python strings                                                      *)
(* ===================================================================== *)

Module Py.

(** A Python [str] is a sequence of Unicode code points. *)
Abbreviation str := (list N).

(** An ASCII literal of the source, as a [str]. *)
Definition lit (s : string) : str :=
  map N_of_ascii (list_ascii_of_string s).

(** The one-character string "\n". *)
Definition LF : str := [10].

(** [bool(x)] of a sequence (a [str] or a [list]): it is non-empty. *)
Definition truth {A} (l : list A) : bool :=
  match l with [] => false | _ :: _ => true end.

(** [str.isspace] on one code point: CPython's whitespace table. *)
Definition isspace (c : N) : bool :=
  ((0x09 <=? c) && (c <=? 0x0D)) || ((0x1C <=? c) && (c <=? 0x20))
  || (c =? 0x85) || (c =? 0xA0) || (c =? 0x1680)
  || ((0x2000 <=? c) && (c <=? 0x200A))
  || (c =? 0x2028) || (c =? 0x2029) || (c =? 0x202F)
  || (c =? 0x205F) || (c =? 0x3000).

Fixpoint lstrip_by (p : N -> bool) (s : str) : str :=
  match s with
  | [] => []
  | c :: s' => if p c then lstrip_by p s' else s
  end.

Definition rstrip_by (p : N -> bool) (s : str) : str :=
  rev (lstrip_by p (rev s)).

(** [s.strip(chars)]: with [chars=None] whitespace is removed from both
    ends, otherwise every leading and trailing code point that occurs in
    [chars]. *)
Definition strip (chars : option str) (s : str) : str :=
  let p := match chars with
           | None => isspace
           | Some cs => fun c => bool_decide (c ∈ cs)
           end in
  rstrip_by p (lstrip_by p s).

(** [str.lower] on one code point.  ASCII capitals move to their small
    letter, and U+212A KELVIN SIGN is the one code point outside ASCII
    whose lower case is an ASCII string.  The lower case of every other
    code point outside ASCII still holds a code point outside ASCII; the
    converter only compares lowered names with ASCII literals, so those
    code points are kept as they are. *)
Definition lower_char (c : N) : N :=
  if (0x41 <=? c) && (c <=? 0x5A) then c + 0x20
  else if c =? 0x212A then 0x6B
  else c.

Definition lower (s : str) : str := map lower_char s.

(** [str(i)] for a one-digit [i], as in [f"h{i}"] with [i] in
    [range(1, 7)]. *)
Definition str_of_digit (i : N) : str := [0x30 + i].

(** [range(a, b)]. *)
Definition range (a b : N) : list N :=
  map N.of_nat (seq (N.to_nat a) (N.to_nat b - N.to_nat a)).

Inductive exn := ParserError | IndexError | ValueError.

Inductive result (A : Type) : Type :=
| Ok (a : A)
| Raise (e : exn).
Arguments Ok {A} a.
Arguments Raise {A} e.

Definition bind {A B} (r : result A) (k : A -> result B) : result B :=
  match r with
  | Ok a => k a
  | Raise e => Raise e
  end.

(** [s[i]] *)
Definition getitem (s : str) (i : nat) : result str :=
  match s !! i with
  | Some c => Ok [c]
  | None => Raise IndexError
  end.

(** [int(s)] on a one-character string.  An ASCII digit gives its value;
    anything else is a [ValueError] here (Python also reads the decimal
    digits of other scripts, which the converter's guard never lets
    through). *)
Definition int (s : str) : result Z :=
  match s with
  | [c] => if (0x30 <=? c) && (c <=? 0x39) then Ok (Z.of_N (c - 0x30))
           else Raise ValueError
  | _ => Raise ValueError
  end.

End Py.

Import Py.

#[global] Instance result_ret : MRet result := @Ok.
#[global] Instance result_bind : MBind result := fun A B k r => bind r k.

(* ===================================================================== *)
(** * The parse tree (bs4)                                                *)
(* ===================================================================== *)

(** The class of a string node.  [isinstance(x, NavigableString)] holds for
    each of them; [Tag.get_text] collects the strings whose class is
    [NavigableString] itself or [CData]. *)
Inductive StringClass :=
| PlainString      (* NavigableString *)
| CData
| Comment
| SpecialString.   (* Doctype, Declaration, ProcessingInstruction, ... *)

(** A node of the tree: a string with its text ([str(element)]), or a tag
    with its [name], its [attrs] dictionary and its [contents]. *)
Inductive PageElement :=
| NavigableString (cls : StringClass) (text : str)
| Tag (name : str) (attrs : gmap str str) (contents : list PageElement).

Definition interesting (cls : StringClass) : bool :=
  match cls with
  | PlainString | CData => true
  | Comment | SpecialString => false
  end.

(** [element.get(key)]: the attribute, [None] when it is absent. *)
Definition get_attr (attrs : gmap str str) (key : str) : option str :=
  attrs !! key.

(** [element.get_text()]: the interesting strings below the element, in
    document order, joined with the empty separator. *)
Fixpoint get_text (element : PageElement) : str :=
  match element with
  | NavigableString cls text => if interesting cls then text else []
  | Tag _ _ contents => concat (map get_text contents)
  end.

(** [node.find_all(name, recursive=False)]: the direct children that are
    tags called [name]. *)
Definition is_tag_named (name : str) (element : PageElement) : bool :=
  match element with
  | NavigableString _ _ => false
  | Tag n _ _ => bool_decide (n = name)
  end.

Definition find_all_direct (name : str) (contents : list PageElement)
  : list PageElement :=
  List.filter (is_tag_named name) contents.

(** [soup.find(name)], which is what [soup.body] abbreviates: the first
    tag called [name] among the descendants, in document order. *)
Fixpoint find_in (name : str) (element : PageElement) : option PageElement :=
  match element with
  | NavigableString _ _ => None
  | Tag _ _ contents =>
      (fix go (cs : list PageElement) : option PageElement :=
         match cs with
         | [] => None
         | c :: cs' =>
             if is_tag_named name c then Some c
             else match find_in name c with
                  | Some r => Some r
                  | None => go cs'
                  end
         end) contents
  end.

(** [element.contents] *)
Definition contents_of (element : PageElement) : list PageElement :=
  match element with
  | NavigableString _ _ => []
  | Tag _ _ contents => contents
  end.

(** The object the parser returns is itself a tag, called "[document]",
    without attributes; it is given here by its contents.  [soup.body] is
    [soup.find("body")]. *)
Definition document (soup : list PageElement) : PageElement :=
  Tag (lit "[document]") ∅ soup.

Definition body (soup : list PageElement) : option PageElement :=
  find_in (lit "body") (document soup).

(* ===================================================================== *)
(** * Rich text nodes                                                     *)
(* ===================================================================== *)

(** [RichTextNode = Dict[str, Union[str, int, bool, List[RichTextNode], None]]].
    The dictionary keeps its keys in insertion order, which is the order
    the serialiser writes them in. *)
Inductive Field (node : Type) : Type :=
| FStr (s : str)
| FInt (n : Z)
| FBool (b : bool)
| FNone
| FList (l : list node).
Arguments FStr {node} s.
Arguments FInt {node} n.
Arguments FBool {node} b.
Arguments FNone {node}.
Arguments FList {node} l.

Inductive RichTextNode :=
| Dict (items : list (str * Field RichTextNode)).

Definition items (d : RichTextNode) : list (str * Field RichTextNode) :=
  match d with Dict its => its end.

Fixpoint assoc {V} (key : str) (its : list (str * V)) : option V :=
  match its with
  | [] => None
  | (k, v) :: its' => if bool_decide (k = key) then Some v else assoc key its'
  end.

(** [d.get(key)] *)
Definition get (d : RichTextNode) (key : str) : option (Field RichTextNode) :=
  assoc key (items d).

Fixpoint assoc_set {V} (key : str) (v : V) (its : list (str * V))
  : list (str * V) :=
  match its with
  | [] => [(key, v)]
  | (k, v') :: its' =>
      if bool_decide (k = key) then (k, v) :: its'
      else (k, v') :: assoc_set key v its'
  end.

(** [d[key] = v] *)
Definition setitem (d : RichTextNode) (key : str) (v : Field RichTextNode)
  : RichTextNode :=
  Dict (assoc_set key v (items d)).

(** [None] or a string, as a dictionary value. *)
Definition of_optional (o : option str) : Field RichTextNode :=
  match o with
  | Some s => FStr s
  | None => FNone
  end.

(* ===================================================================== *)
(** * Internal helpers                                                    *)
(* ===================================================================== *)

Definition _text_node (value : str) (bold italic : bool) : RichTextNode :=
  let node := Dict [ (lit "type", FStr (lit "text"));
                     (lit "value", FStr (strip (Some LF) value)) ] in
  let node := if bold then setitem node (lit "bold") (FBool true) else node in
  let node := if italic then setitem node (lit "italic") (FBool true) else node in
  node.

Fixpoint _parse_inline (element : PageElement) (bold italic : bool)
  : list RichTextNode :=
  match element with
  | NavigableString _ text =>
      if negb (truth (strip None text)) then []
      else [_text_node text bold italic]
  | Tag name attrs contents =>
      let tag_name := lower name in
      let '(bold, italic) :=
        if bool_decide (tag_name ∈ [lit "strong"; lit "b"]) then (true, italic)
        else if bool_decide (tag_name ∈ [lit "em"; lit "i"]) then (bold, true)
        else (bold, italic) in
      if bool_decide (tag_name = lit "a") then
        let children :=
          foldl (fun children child =>
                   children ++ _parse_inline child bold italic) [] contents in
        [ Dict [ (lit "type", FStr (lit "link"));
                 (lit "url", of_optional (get_attr attrs (lit "href")));
                 (lit "title", of_optional (get_attr attrs (lit "title")));
                 (lit "target", of_optional (get_attr attrs (lit "target")));
                 (lit "children",
                   FList (if truth children then children
                          else [_text_node (get_text element) bold italic])) ] ]
      else
        foldl (fun children child =>
                 children ++ _parse_inline child bold italic) [] contents
  end.

(* ===================================================================== *)
(** * Public API                                                          *)
(* ===================================================================== *)

(** [{f"h{i}" for i in range(1, 7)}] *)
Definition heading_tags : list str :=
  map (fun i => lit "h" ++ str_of_digit i) (range 1 7).

(** The body of the loop over [top_level]: [root_children] after [node]
    has been handled. *)
Definition visit (root_children : list RichTextNode) (node : PageElement)
  : result (list RichTextNode) :=
  match node with
  | NavigableString _ text =>
      if truth (strip None text) then
        let paragraph_children := _parse_inline node false false in
        Ok (root_children ++
              [ Dict [ (lit "type", FStr (lit "paragraph"));
                       (lit "children", FList paragraph_children) ] ])
      else Ok root_children
  | Tag name _ contents =>
      let tag_name := lower name in
      if bool_decide (tag_name ∈ heading_tags) then
        digit ← getitem tag_name 1;
        level ← int digit;
        let children := _parse_inline node false false in
        Ok (root_children ++
              [ Dict [ (lit "type", FStr (lit "heading"));
                       (lit "level", FInt level);
                       (lit "children", FList children) ] ])
      else if bool_decide (tag_name = lit "p") then
        let children := _parse_inline node false false in
        Ok (root_children ++
              [ Dict [ (lit "type", FStr (lit "paragraph"));
                       (lit "children", FList children) ] ])
      else if bool_decide (tag_name ∈ [lit "ul"; lit "ol"]) then
        let list_type :=
          if bool_decide (tag_name = lit "ul") then lit "unordered"
          else lit "ordered" in
        let items :=
          foldl (fun items li =>
                   let li_children := _parse_inline li false false in
                   if truth li_children then
                     items ++ [ Dict [ (lit "type", FStr (lit "list-item"));
                                       (lit "children", FList li_children) ] ]
                   else items)
                [] (find_all_direct (lit "li") contents) in
        if truth items then
          Ok (root_children ++
                [ Dict [ (lit "type", FStr (lit "list"));
                         (lit "listType", FStr list_type);
                         (lit "children", FList items) ] ])
        else Ok root_children
      else if bool_decide (tag_name = lit "blockquote") then
        let quote_children := _parse_inline node false false in
        Ok (root_children ++
              [ Dict [ (lit "type", FStr (lit "quote"));
                       (lit "children",
                         FList [ Dict [ (lit "type", FStr (lit "paragraph"));
                                        (lit "children", FList quote_children) ] ]) ] ])
      else
        let children := _parse_inline node false false in
        Ok (root_children ++
              [ Dict [ (lit "type", FStr (lit "paragraph"));
                       (lit "children", FList children) ] ])
  end.

(** [for node in top_level: ...] *)
Fixpoint for_top_level (top_level : list PageElement)
    (root_children : list RichTextNode) : result (list RichTextNode) :=
  match top_level with
  | [] => Ok root_children
  | node :: rest =>
      root_children ← visit root_children node;
      for_top_level rest root_children
  end.

(** [soup.body.contents if soup.body else soup.contents] *)
Definition top_level (soup : list PageElement) : list PageElement :=
  match body soup with
  | Some b => contents_of b
  | None => soup
  end.

Section Converter.

(** [BeautifulSoup(html_content, "html.parser")]: the parser is bs4's, not
    this module's.  It gives the contents of the document it built, or
    raises. *)
Variable BeautifulSoup : str -> result (list PageElement).

Definition html_to_richtext (html_content : str) : result RichTextNode :=
  if negb (truth html_content) then
    Ok (Dict [ (lit "type", FStr (lit "root")); (lit "children", FList []) ])
  else
    soup ← BeautifulSoup html_content;
    root_children ← for_top_level (top_level soup) [];
    Ok (Dict [ (lit "type", FStr (lit "root"));
               (lit "children", FList root_children) ]).

End Converter.

(* ===================================================================== *)
(** * Vocabulary of the statements                                        *)
(* ===================================================================== *)

(** The nodes held by one entry of a dictionary, and the node with
    everything below it, parents before children, in document order. *)
Fixpoint nodes (n : RichTextNode) : list RichTextNode :=
  n :: match n with
       | Dict its =>
           concat (map (fun kv : str * Field RichTextNode =>
                          let '(_, v) := kv in
                          match v with
                          | FList l => concat (map nodes l)
                          | _ => []
                          end) its)
       end.

Definition forest_nodes (l : list RichTextNode) : list RichTextNode :=
  concat (map nodes l).

(** The closed vocabulary of node types. *)
Definition node_types : list str :=
  [ lit "root"; lit "paragraph"; lit "heading"; lit "list";
    lit "list-item"; lit "quote"; lit "text"; lit "link" ].

(** [n["type"]] when it is there and a string. *)
Definition type_of (n : RichTextNode) : option str :=
  match get n (lit "type") with
  | Some (FStr t) => Some t
  | _ => None
  end.

Definition type_known (n : RichTextNode) : bool :=
  match type_of n with
  | Some t => bool_decide (t ∈ node_types)
  | None => false
  end.

Definition is_text (n : RichTextNode) : bool :=
  bool_decide (type_of n = Some (lit "text")).

(** The text nodes of a sequence of inline nodes, at any depth. *)
Definition text_nodes (l : list RichTextNode) : list RichTextNode :=
  List.filter is_text (forest_nodes l).

(** How a flag of the context shows in a text node: the key holds [True]
    or is absent. *)
Definition flag (b : bool) : option (Field RichTextNode) :=
  if b then Some (FBool true) else None.

(** A text node carries a format when its key holds [True]. *)
Definition carries (key : str) (n : RichTextNode) : Prop :=
  get n key = Some (FBool true).

(** The tags the top-level loop has a branch for. *)
Definition block_tags : list str :=
  heading_tags ++ [ lit "p"; lit "ul"; lit "ol"; lit "blockquote" ].

(** The tags [_parse_inline] itself reacts to. *)
Definition inline_tags : list str :=
  [ lit "strong"; lit "b"; lit "em"; lit "i"; lit "a" ].

(** The children of an element resolved one by one under a context and
    concatenated in document order. *)
Definition resolve_children (contents : list PageElement) (bold italic : bool)
  : list RichTextNode :=
  concat (map (fun child => _parse_inline child bold italic) contents).

(** The context a tag hands to its children. *)
Definition bold_below (tag_name : str) (bold : bool) : bool :=
  if bool_decide (tag_name ∈ [lit "strong"; lit "b"]) then true else bold.

Definition italic_below (tag_name : str) (italic : bool) : bool :=
  if bool_decide (tag_name ∈ [lit "strong"; lit "b"]) then italic
  else if bool_decide (tag_name ∈ [lit "em"; lit "i"]) then true
  else italic.

(** ** Vocabulary of the further properties *)

(** [n["children"]] when it is there and a list; nothing otherwise. *)
Definition children_of (n : RichTextNode) : list RichTextNode :=
  match get n (lit "children") with
  | Some (FList l) => l
  | _ => []
  end.

(** The node is a leaf of the inline level: a text or a link. *)
Definition inline_type (n : RichTextNode) : Prop :=
  type_of n = Some (lit "text") \/ type_of n = Some (lit "link").

(** The node is one of the four blocks. *)
Definition block_type (n : RichTextNode) : Prop :=
  exists t, type_of n = Some t
            /\ t ∈ [lit "paragraph"; lit "heading"; lit "list"; lit "quote"].

(** The subtree holds no anchor and no string with a code point that is
    not whitespace. *)
Fixpoint blank (element : PageElement) : bool :=
  match element with
  | NavigableString _ text => forallb isspace text
  | Tag name _ contents =>
      negb (bool_decide (lower name = lit "a")) && forallb blank contents
  end.

(** A tag called [name] is the element itself or lies below it. *)
Fixpoint mentions (name : str) (element : PageElement) : bool :=
  match element with
  | NavigableString _ _ => false
  | Tag n _ contents =>
      bool_decide (n = name) || existsb (mentions name) contents
  end.

(** The top-level node is a string of whitespace, or a [ul]/[ol] whose
    direct [li] children are all blank. *)
Definition adds_nothing (node : PageElement) : bool :=
  match node with
  | NavigableString _ text => forallb isspace text
  | Tag name _ contents =>
      bool_decide (lower name ∈ [lit "ul"; lit "ol"])
      && forallb blank (find_all_direct (lit "li") contents)
  end.

(** Which types a node of type [t] may hold as children. *)
Definition allowed_children (t : str) : list str :=
  if bool_decide (t = lit "root") then
    [lit "paragraph"; lit "heading"; lit "list"; lit "quote"]
  else if bool_decide (t = lit "list") then [lit "list-item"]
  else if bool_decide (t = lit "quote") then [lit "paragraph"]
  else if bool_decide (t ∈ [lit "paragraph"; lit "heading";
                            lit "list-item"; lit "link"]) then
    [lit "text"; lit "link"]
  else [].

(** The children of the node have types its own type allows. *)
Definition nesting_ok (n : RichTextNode) : Prop :=
  exists t, type_of n = Some t
            /\ Forall (fun k => exists tk, type_of k = Some tk
                                          /\ tk ∈ allowed_children t)
                      (children_of n).

(** A node whose "type" is written out is not of another type. *)
Ltac other_type :=
  let H := fresh "Hty" in intros H; vm_compute in H; discriminate H.

(** The same, past the binders of a statement about one kind of node. *)
Ltac skip_other_type :=
  repeat lazymatch goal with
         | |- type_of _ = Some _ -> _ => fail
         | |- forall _, _ => intro
         end;
  other_type.

(* ===================================================================== *)
(** * Loops as sequence operations                                        *)
(* ===================================================================== *)

Section Loops.
Context {A B : Type}.

(** [for x in l: acc.extend(f(x))] *)
Lemma foldl_extend (f : A -> list B) (l : list A) (acc : list B) :
  foldl (fun acc x => acc ++ f x) acc l = acc ++ concat (map f l).
Proof.
  revert acc; induction l as [|x l IH]; intros acc; simpl.
  - by rewrite app_nil_r.
  - by rewrite IH, <- app_assoc.
Qed.

(** [for x in l: y = f(x); if y: acc.append(g(y))] *)
Lemma foldl_append_if (f : A -> list B) (g : list B -> B) (l : list A)
    (acc : list B) :
  foldl (fun acc x => if truth (f x) then acc ++ [g (f x)] else acc) acc l
  = acc ++ map (fun x => g (f x)) (List.filter (fun x => truth (f x)) l).
Proof.
  revert acc; induction l as [|x l IH]; intros acc; simpl.
  - by rewrite app_nil_r.
  - rewrite IH. destruct (truth (f x)); simpl; [|done].
    by rewrite <- app_assoc.
Qed.

End Loops.

Lemma truth_false_nil {A} (l : list A) : truth l = false <-> l = [].
Proof. destruct l; simpl; split; congruence. Qed.

(* ===================================================================== *)
(** * Stripping                                                           *)
(* ===================================================================== *)

Section Strip.
Variable p : N -> bool.

Lemma lstrip_by_split (s : str) :
  exists pre, s = pre ++ lstrip_by p s /\ Forall (fun c => p c = true) pre.
Proof.
  induction s as [|c s [pre [Hs Hp]]]; simpl.
  - by exists [].
  - destruct (p c) eqn:Hc.
    + exists (c :: pre); simpl. split; [by f_equal | by constructor].
    + by exists [].
Qed.

Lemma lstrip_by_head (s : str) c :
  head (lstrip_by p s) = Some c -> p c = false.
Proof.
  induction s as [|d s IH]; simpl; [done|].
  destruct (p d) eqn:Hd; [done|]. simpl. congruence.
Qed.

Lemma lstrip_by_nil (s : str) :
  lstrip_by p s = [] <-> Forall (fun c => p c = true) s.
Proof.
  induction s as [|c s IH]; simpl; [done|].
  destruct (p c) eqn:Hc.
  - rewrite IH. split; [by constructor | by inversion 1].
  - split; [done|]. inversion 1; congruence.
Qed.

Lemma last_rev (s : str) : last (rev s) = head s.
Proof. destruct s as [|c s]; simpl; [done|]. apply last_snoc. Qed.

Lemma rstrip_by_split (s : str) :
  exists post, s = rstrip_by p s ++ post /\ Forall (fun c => p c = true) post.
Proof.
  unfold rstrip_by. destruct (lstrip_by_split (rev s)) as [pre [Hs Hp]].
  exists (rev pre). split; [|by apply Forall_rev].
  by rewrite <- rev_app_distr, <- Hs, rev_involutive.
Qed.

Lemma rstrip_by_last (s : str) c :
  last (rstrip_by p s) = Some c -> p c = false.
Proof. unfold rstrip_by. rewrite last_rev. apply lstrip_by_head. Qed.

Lemma rstrip_by_nil (s : str) :
  rstrip_by p s = [] <-> Forall (fun c => p c = true) s.
Proof.
  unfold rstrip_by. split.
  - intros H. apply (f_equal (@rev N)) in H. rewrite rev_involutive in H.
    simpl in H. apply lstrip_by_nil in H. apply Forall_rev in H.
    by rewrite rev_involutive in H.
  - intros H. apply Forall_rev in H. apply lstrip_by_nil in H. by rewrite H.
Qed.

End Strip.

(** What [strip] returns: the string without a run of strippable code
    points at either end, and nothing strippable left at its ends. *)
Lemma strip_spec (chars : option str) (s : str) :
  let p := match chars with
           | None => isspace
           | Some cs => fun c => bool_decide (c ∈ cs)
           end in
  exists pre post,
    s = pre ++ strip chars s ++ post
    /\ Forall (fun c => p c = true) pre
    /\ Forall (fun c => p c = true) post
    /\ (forall c, head (strip chars s) = Some c -> p c = false)
    /\ (forall c, last (strip chars s) = Some c -> p c = false).
Proof.
  intros p. unfold strip. fold p.
  destruct (lstrip_by_split p s) as [pre [Hs Hpre]].
  destruct (rstrip_by_split p (lstrip_by p s)) as [post [Ht Hpost]].
  exists pre, post. repeat split; try done.
  - by rewrite <- Ht.
  - intros c Hc. apply (lstrip_by_head p s). rewrite Ht.
    destruct (rstrip_by p (lstrip_by p s)); [done|]. by simpl in *.
  - apply rstrip_by_last.
Qed.

(** [not s.strip(chars)]: every code point of [s] is strippable. *)
Lemma strip_nil (chars : option str) (s : str) :
  let p := match chars with
           | None => isspace
           | Some cs => fun c => bool_decide (c ∈ cs)
           end in
  strip chars s = [] <-> Forall (fun c => p c = true) s.
Proof.
  intros p. unfold strip. fold p. rewrite rstrip_by_nil. split.
  - intros H. destruct (lstrip_by_split p s) as [pre [Hs Hpre]].
    rewrite Hs. by apply Forall_app.
  - intros H. apply lstrip_by_nil in H. by rewrite H.
Qed.

(* ===================================================================== *)
(** * The inline resolver, equation by equation                           *)
(* ===================================================================== *)

(** Induction on the parse tree, with the hypothesis for every child. *)
Lemma PageElement_tree_ind (P : PageElement -> Prop) :
  (forall cls text, P (NavigableString cls text)) ->
  (forall name attrs contents,
      Forall P contents -> P (Tag name attrs contents)) ->
  forall element, P element.
Proof.
  intros Hstr Htag. fix IH 1. intros [cls text | name attrs contents].
  - apply Hstr.
  - apply Htag. induction contents as [|c cs IHcs]; constructor; auto.
Qed.

Lemma parse_inline_string cls text bold italic :
  _parse_inline (NavigableString cls text) bold italic
  = if truth (strip None text) then [_text_node text bold italic] else [].
Proof. simpl. by destruct (truth (strip None text)). Qed.

Lemma parse_inline_tag name attrs contents bold italic :
  _parse_inline (Tag name attrs contents) bold italic
  = let bold' := bold_below (lower name) bold in
    let italic' := italic_below (lower name) italic in
    let children := resolve_children contents bold' italic' in
    if bool_decide (lower name = lit "a") then
      [ Dict [ (lit "type", FStr (lit "link"));
               (lit "url", of_optional (get_attr attrs (lit "href")));
               (lit "title", of_optional (get_attr attrs (lit "title")));
               (lit "target", of_optional (get_attr attrs (lit "target")));
               (lit "children",
                 FList (if truth children then children
                        else [_text_node (get_text (Tag name attrs contents))
                                bold' italic'])) ] ]
    else children.
Proof.
  unfold bold_below, italic_below, resolve_children.
  cbn [_parse_inline].
  destruct (bool_decide (lower name ∈ [lit "strong"; lit "b"]));
    [|destruct (bool_decide (lower name ∈ [lit "em"; lit "i"]))];
    cbn zeta; rewrite !foldl_extend; reflexivity.
Qed.

(** A tag [_parse_inline] does not react to is unwrapped. *)
Lemma parse_inline_unwrap name attrs contents bold italic :
  lower name ∉ inline_tags ->
  _parse_inline (Tag name attrs contents) bold italic
  = resolve_children contents bold italic.
Proof.
  intros Hn. rewrite parse_inline_tag.
  unfold bold_below, italic_below, inline_tags in *.
  rewrite !bool_decide_eq_false_2; [done| | |];
    intros H; apply Hn; rewrite ?elem_of_cons in *; tauto.
Qed.

Lemma block_tag_not_inline (tag_name : str) :
  tag_name ∈ block_tags -> tag_name ∉ inline_tags.
Proof.
  intros H Hi.
  assert (Hd : bool_decide (Exists (fun t => t ∈ inline_tags) block_tags) = false)
    by (vm_compute; reflexivity).
  apply bool_decide_eq_false in Hd. apply Hd.
  apply Exists_exists. by exists tag_name.
Qed.

(** ** Text nodes *)

Lemma text_node_type value bold italic :
  get (_text_node value bold italic) (lit "type") = Some (FStr (lit "text")).
Proof. by destruct bold, italic. Qed.

Lemma text_node_value value bold italic :
  get (_text_node value bold italic) (lit "value")
  = Some (FStr (strip (Some LF) value)).
Proof. by destruct bold, italic. Qed.

Lemma text_node_bold value bold italic :
  get (_text_node value bold italic) (lit "bold") = flag bold.
Proof. by destruct bold, italic. Qed.

Lemma text_node_italic value bold italic :
  get (_text_node value bold italic) (lit "italic") = flag italic.
Proof. by destruct bold, italic. Qed.

Lemma text_node_nodes value bold italic :
  nodes (_text_node value bold italic) = [_text_node value bold italic].
Proof. by destruct bold, italic. Qed.

(* ===================================================================== *)
(** * The top-level loop, branch by branch                                *)
(* ===================================================================== *)

Lemma heading_tags_spec (tag_name : str) :
  tag_name ∈ heading_tags
  <-> exists i, 1 <= i <= 6 /\ tag_name = lit "h" ++ str_of_digit i.
Proof.
  change heading_tags
    with (map (fun i => lit "h" ++ str_of_digit i) [1; 2; 3; 4; 5; 6]).
  rewrite list_elem_of_In, in_map_iff. split.
  - intros [i [<- Hi]]. exists i. split; [|done].
    simpl in Hi. lia.
  - intros [i [Hi ->]]. exists i. split; [done|].
    simpl. lia.
Qed.

Lemma visit_string root_children cls text :
  visit root_children (NavigableString cls text)
  = if truth (strip None text) then
      Ok (root_children ++
            [ Dict [ (lit "type", FStr (lit "paragraph"));
                     (lit "children", FList [_text_node text false false]) ] ])
    else Ok root_children.
Proof. simpl. by destruct (truth (strip None text)). Qed.

Lemma visit_heading root_children name attrs contents (i : N) :
  1 <= i <= 6 ->
  lower name = lit "h" ++ str_of_digit i ->
  visit root_children (Tag name attrs contents)
  = Ok (root_children ++
          [ Dict [ (lit "type", FStr (lit "heading"));
                   (lit "level", FInt (Z.of_N i));
                   (lit "children",
                     FList (_parse_inline (Tag name attrs contents)
                              false false)) ] ]).
Proof.
  intros Hi Hn. unfold visit. rewrite Hn.
  assert (Hc : i = 1 \/ i = 2 \/ i = 3 \/ i = 4 \/ i = 5 \/ i = 6) by lia.
  destruct Hc as [-> | [-> | [-> | [-> | [-> | ->]]]]]; reflexivity.
Qed.

Lemma visit_p root_children name attrs contents :
  lower name = lit "p" ->
  visit root_children (Tag name attrs contents)
  = Ok (root_children ++
          [ Dict [ (lit "type", FStr (lit "paragraph"));
                   (lit "children",
                     FList (_parse_inline (Tag name attrs contents)
                              false false)) ] ]).
Proof. intros Hn. unfold visit. rewrite Hn. reflexivity. Qed.

Lemma visit_list root_children name attrs contents :
  lower name ∈ [lit "ul"; lit "ol"] ->
  visit root_children (Tag name attrs contents)
  = let items :=
      map (fun li => Dict [ (lit "type", FStr (lit "list-item"));
                            (lit "children",
                              FList (_parse_inline li false false)) ])
          (List.filter (fun li => truth (_parse_inline li false false))
                       (find_all_direct (lit "li") contents)) in
    if truth items then
      Ok (root_children ++
            [ Dict [ (lit "type", FStr (lit "list"));
                     (lit "listType",
                       FStr (if bool_decide (lower name = lit "ul")
                             then lit "unordered" else lit "ordered"));
                     (lit "children", FList items) ] ])
    else Ok root_children.
Proof.
  intros Hn. unfold visit.
  rewrite (foldl_append_if
             (fun li => _parse_inline li false false)
             (fun li_children =>
                Dict [ (lit "type", FStr (lit "list-item"));
                       (lit "children", FList li_children) ])).
  rewrite !elem_of_cons in Hn.
  destruct Hn as [Hn | [Hn | Hn]]; [| |by apply elem_of_nil in Hn];
    rewrite Hn; reflexivity.
Qed.

Lemma visit_blockquote root_children name attrs contents :
  lower name = lit "blockquote" ->
  visit root_children (Tag name attrs contents)
  = Ok (root_children ++
          [ Dict [ (lit "type", FStr (lit "quote"));
                   (lit "children",
                     FList [ Dict [ (lit "type", FStr (lit "paragraph"));
                                    (lit "children",
                                      FList (_parse_inline
                                               (Tag name attrs contents)
                                               false false)) ] ]) ] ]).
Proof. intros Hn. unfold visit. rewrite Hn. reflexivity. Qed.

Lemma visit_fallback root_children name attrs contents :
  lower name ∉ block_tags ->
  visit root_children (Tag name attrs contents)
  = Ok (root_children ++
          [ Dict [ (lit "type", FStr (lit "paragraph"));
                   (lit "children",
                     FList (_parse_inline (Tag name attrs contents)
                              false false)) ] ]).
Proof.
  intros Hn. unfold visit, block_tags in *.
  rewrite elem_of_app, !elem_of_cons in Hn.
  rewrite !bool_decide_eq_false_2; [done| | | |];
    intros H; apply Hn; rewrite ?elem_of_cons in *; tauto.
Qed.

(** The branches cover every tag. *)
Lemma block_tags_cases (tag_name : str) :
  (exists i, 1 <= i <= 6 /\ tag_name = lit "h" ++ str_of_digit i)
  \/ tag_name = lit "p"
  \/ tag_name ∈ [lit "ul"; lit "ol"]
  \/ tag_name = lit "blockquote"
  \/ tag_name ∉ block_tags.
Proof.
  destruct (decide (tag_name ∈ block_tags)) as [H|H]; [|tauto].
  unfold block_tags in H. rewrite elem_of_app, !elem_of_cons in H.
  rewrite heading_tags_spec in H. rewrite !elem_of_cons.
  destruct H as [H | [H | [H | [H | [H | H]]]]]; tauto.
Qed.

(* ===================================================================== *)
(** * Nodes of the output                                                 *)
(* ===================================================================== *)

Lemma forest_nodes_app (l1 l2 : list RichTextNode) :
  forest_nodes (l1 ++ l2) = forest_nodes l1 ++ forest_nodes l2.
Proof. unfold forest_nodes. by rewrite map_app, concat_app. Qed.

Lemma forest_nodes_cons n (l : list RichTextNode) :
  forest_nodes (n :: l) = nodes n ++ forest_nodes l.
Proof. reflexivity. Qed.

Lemma forest_nodes_singleton n : forest_nodes [n] = nodes n.
Proof. unfold forest_nodes. simpl. by rewrite app_nil_r. Qed.

Lemma nodes_container (t : str) (kids : list RichTextNode) :
  nodes (Dict [ (lit "type", FStr t); (lit "children", FList kids) ])
  = Dict [ (lit "type", FStr t); (lit "children", FList kids) ]
    :: forest_nodes kids.
Proof. unfold forest_nodes. simpl. by rewrite app_nil_r. Qed.

Lemma nodes_heading (level : Z) (kids : list RichTextNode) :
  nodes (Dict [ (lit "type", FStr (lit "heading")); (lit "level", FInt level);
                (lit "children", FList kids) ])
  = Dict [ (lit "type", FStr (lit "heading")); (lit "level", FInt level);
           (lit "children", FList kids) ]
    :: forest_nodes kids.
Proof. unfold forest_nodes. simpl. by rewrite app_nil_r. Qed.

Lemma nodes_list (list_type : str) (kids : list RichTextNode) :
  nodes (Dict [ (lit "type", FStr (lit "list"));
                (lit "listType", FStr list_type);
                (lit "children", FList kids) ])
  = Dict [ (lit "type", FStr (lit "list"));
           (lit "listType", FStr list_type);
           (lit "children", FList kids) ]
    :: forest_nodes kids.
Proof. unfold forest_nodes. simpl. by rewrite app_nil_r. Qed.

Lemma nodes_link (url title target : option str) (kids : list RichTextNode) :
  nodes (Dict [ (lit "type", FStr (lit "link"));
                (lit "url", of_optional url);
                (lit "title", of_optional title);
                (lit "target", of_optional target);
                (lit "children", FList kids) ])
  = Dict [ (lit "type", FStr (lit "link"));
           (lit "url", of_optional url);
           (lit "title", of_optional title);
           (lit "target", of_optional target);
           (lit "children", FList kids) ]
    :: forest_nodes kids.
Proof.
  unfold forest_nodes. destruct url, title, target; simpl;
    by rewrite app_nil_r.
Qed.

(** A property of nodes that may depend on the inherited context, and
    that survives when the context is weakened, holds of every node the
    resolver returns as soon as it holds of the text and link nodes it
    builds. *)
Section ResolverInvariant.
Variable Q : bool -> bool -> RichTextNode -> Prop.
Hypothesis Q_weaken : forall (b i b' i' : bool) n,
  (b = true -> b' = true) -> (i = true -> i' = true) ->
  Q b' i' n -> Q b i n.
Hypothesis Q_text : forall value b i, Q b i (_text_node value b i).
Hypothesis Q_link : forall (b i : bool) url title target kids,
  Q b i (Dict [ (lit "type", FStr (lit "link"));
                (lit "url", of_optional url);
                (lit "title", of_optional title);
                (lit "target", of_optional target);
                (lit "children", FList kids) ]).

Lemma bold_below_mono tag_name b : b = true -> bold_below tag_name b = true.
Proof. unfold bold_below. by destruct (bool_decide _). Qed.

Lemma italic_below_mono tag_name i : i = true -> italic_below tag_name i = true.
Proof. unfold italic_below. by repeat destruct (bool_decide _). Qed.

Lemma resolve_children_invariant contents b i :
  Forall (fun child => forall b i,
            Forall (Q b i) (forest_nodes (_parse_inline child b i))) contents ->
  Forall (Q b i) (forest_nodes (resolve_children contents b i)).
Proof.
  unfold resolve_children.
  induction 1 as [|c cs Hc _ IH]; simpl; [constructor|].
  rewrite forest_nodes_app. apply Forall_app. split; [apply Hc | apply IH].
Qed.

Lemma parse_inline_invariant element :
  forall b i, Forall (Q b i) (forest_nodes (_parse_inline element b i)).
Proof.
  induction element as [cls text | name attrs contents IH]
    using PageElement_tree_ind; intros b i.
  - rewrite parse_inline_string. destruct (truth _); [|constructor].
    rewrite forest_nodes_cons, text_node_nodes. simpl.
    constructor; [apply Q_text | constructor].
  - rewrite parse_inline_tag. cbn zeta.
    pose proof (resolve_children_invariant contents
                  (bold_below (lower name) b)
                  (italic_below (lower name) i) IH) as Hkids.
    assert (Hweak : forall l,
               Forall (Q (bold_below (lower name) b)
                         (italic_below (lower name) i)) l ->
               Forall (Q b i) l).
    { intros l Hl. eapply Forall_impl; [exact Hl|]. intros n.
      apply Q_weaken; [apply bold_below_mono | apply italic_below_mono]. }
    destruct (bool_decide (lower name = lit "a")); [|by apply Hweak].
    rewrite forest_nodes_cons, nodes_link. simpl. rewrite app_nil_r.
    constructor; [apply Q_link|]. apply Hweak.
    destruct (truth _); [done|].
    rewrite forest_nodes_cons, text_node_nodes. simpl.
    constructor; [apply Q_text | constructor].
Qed.

End ResolverInvariant.

(* ===================================================================== *)
(** * The loop as a whole                                                 *)
(* ===================================================================== *)

(** Whatever the node, the loop body succeeds, appends at most one block
    to the root, and every node of that block has a known type. *)
Lemma visit_appends (node : PageElement) :
  exists out,
    (forall root_children, visit root_children node = Ok (root_children ++ out))
    /\ (length out <= 1)%nat
    /\ Forall (fun n => type_known n = true) (forest_nodes out).
Proof.
  pose proof (fun e => parse_inline_invariant
                (fun _ _ n => type_known n = true)
                (fun _ _ _ _ n _ _ H => H)
                (fun v b i => ltac:(by destruct b, i))
                (fun _ _ u t g k => eq_refl) e false false) as Hinl.
  destruct node as [cls text | name attrs contents].
  - destruct (truth (strip None text)) eqn:Ht.
    + eexists. split; [intros rc; rewrite visit_string, Ht; reflexivity|].
      split; [simpl; lia|].
      repeat constructor.
    + exists []. split; [intros rc; by rewrite visit_string, Ht, app_nil_r|].
      split; [simpl; lia | constructor].
  - destruct (block_tags_cases (lower name))
      as [[i [Hi Hn]] | [Hn | [Hn | [Hn | Hn]]]].
    + eexists. split; [intros rc; by apply visit_heading with (i := i)|].
      split; [simpl; lia|].
      rewrite forest_nodes_singleton, nodes_heading.
      constructor; [reflexivity | apply Hinl].
    + eexists. split; [intros rc; by apply visit_p|].
      split; [simpl; lia|].
      rewrite forest_nodes_singleton, nodes_container.
      constructor; [reflexivity | apply Hinl].
    + pose proof (fun rc => visit_list rc name attrs contents Hn) as Hv.
      cbn zeta in Hv.
      remember (List.filter (fun li => truth (_parse_inline li false false))
                  (find_all_direct (lit "li") contents)) as lis eqn:Hlis.
      clear Hlis.
      assert (Hitems : Forall (fun n => type_known n = true)
                (forest_nodes
                   (map (fun li =>
                           Dict [ (lit "type", FStr (lit "list-item"));
                                  (lit "children",
                                    FList (_parse_inline li false false)) ])
                        lis))).
      { clear Hv. induction lis as [|x xs IH]; [constructor|].
        cbn [map]. rewrite forest_nodes_cons, nodes_container.
        rewrite <- app_comm_cons. constructor; [reflexivity|].
        apply Forall_app. split; [apply Hinl | apply IH]. }
      destruct lis as [|li lis'].
      * exists []. split; [intros rc; by rewrite Hv, app_nil_r|].
        split; [simpl; lia | constructor].
      * eexists. split; [intros rc; by rewrite Hv|].
        split; [simpl; lia|].
        rewrite forest_nodes_singleton, nodes_list.
        constructor; [reflexivity | apply Hitems].
    + eexists. split; [intros rc; by apply visit_blockquote|].
      split; [simpl; lia|].
      rewrite forest_nodes_singleton, nodes_container.
      constructor; [reflexivity|].
      rewrite forest_nodes_singleton, nodes_container.
      constructor; [reflexivity | apply Hinl].
    + eexists. split; [intros rc; by apply visit_fallback|].
      split; [simpl; lia|].
      rewrite forest_nodes_singleton, nodes_container.
      constructor; [reflexivity | apply Hinl].
Qed.

Lemma for_top_level_appends (nodes_in : list PageElement) :
  exists out,
    (forall root_children,
        for_top_level nodes_in root_children = Ok (root_children ++ out))
    /\ Forall (fun n => type_known n = true) (forest_nodes out).
Proof.
  induction nodes_in as [|node rest [out' [Hrest Hout']]].
  - exists []. split; [intros rc; simpl; by rewrite app_nil_r | constructor].
  - destruct (visit_appends node) as [out [Hv [_ Hout]]].
    exists (out ++ out'). split.
    + intros rc. cbn [for_top_level]. rewrite Hv. cbn.
      by rewrite Hrest, app_assoc.
    + rewrite forest_nodes_app. by apply Forall_app.
Qed.

Lemma for_top_level_app (pre post : list PageElement) root_children :
  for_top_level (pre ++ post) root_children
  = bind (for_top_level pre root_children) (for_top_level post).
Proof.
  revert root_children. induction pre as [|node pre IH]; intros rc; [done|].
  cbn [for_top_level app]. destruct (visit_appends node) as [out [Hv _]].
  rewrite Hv. cbn. apply IH.
Qed.

(** Past the guard and the parser, the result is the root around what the
    loop collected. *)
Lemma html_to_richtext_parsed BeautifulSoup html_content soup :
  truth html_content = true ->
  BeautifulSoup html_content = Ok soup ->
  html_to_richtext BeautifulSoup html_content
  = bind (for_top_level (top_level soup) [])
         (fun root_children =>
            Ok (Dict [ (lit "type", FStr (lit "root"));
                       (lit "children", FList root_children) ])).
Proof. intros Ht Hs. unfold html_to_richtext. by rewrite Ht, Hs. Qed.

(* ===================================================================== *)
(** * Properties of the converter                                         *)
(* ===================================================================== *)

Lemma Forall_in_LF (s : str) :
  Forall (fun c => bool_decide (c ∈ LF) = true) s -> Forall (fun c => c = 10) s.
Proof.
  intros H. eapply Forall_impl; [exact H|]. intros c Hc.
  apply bool_decide_eq_true in Hc.
  unfold LF in Hc. by apply list_elem_of_singleton in Hc.
Qed.

Lemma not_LF_end (o : option N) :
  (forall c, o = Some c -> bool_decide (c ∈ LF) = false) -> o <> Some 10.
Proof. intros H Ho. by specialize (H 10 Ho). Qed.

(** C3: a raw text node, under any inherited context.  When the text is
    empty once all whitespace is trimmed (that is, when it holds nothing
    but whitespace) the resolver returns the empty sequence.  Otherwise it
    returns exactly one text node: its value is the text without the
    newlines at its two ends and nothing else removed, the key "bold" holds
    [True] when the inherited bold flag is set and is absent when it is
    not, and likewise "italic"; [False] is never written. *)
Theorem raw_text_resolution (cls : StringClass) (text : str) (bold italic : bool) :
  (strip None text = []
   /\ Forall (fun c => isspace c = true) text
   /\ _parse_inline (NavigableString cls text) bold italic = [])
  \/
  (strip None text <> []
   /\ exists node pre post,
       _parse_inline (NavigableString cls text) bold italic = [node]
       /\ get node (lit "type") = Some (FStr (lit "text"))
       /\ get node (lit "value") = Some (FStr (strip (Some LF) text))
       /\ text = pre ++ strip (Some LF) text ++ post
       /\ Forall (fun c => c = 10) pre
       /\ Forall (fun c => c = 10) post
       /\ head (strip (Some LF) text) <> Some 10
       /\ last (strip (Some LF) text) <> Some 10
       /\ get node (lit "bold") = (if bold then Some (FBool true) else None)
       /\ get node (lit "italic") = (if italic then Some (FBool true) else None)
       /\ get node (lit "bold") <> Some (FBool false)
       /\ get node (lit "italic") <> Some (FBool false)).
Proof.
  rewrite parse_inline_string.
  destruct (strip None text) as [|c s] eqn:Hs.
  - left. split; [done|]. split; [|done]. by apply (strip_nil None).
  - right. split; [done|].
    destruct (strip_spec (Some LF) text)
      as [pre [post [Htext [Hpre [Hpost [Hhead Hlast]]]]]].
    exists (_text_node text bold italic), pre, post.
    rewrite text_node_type, text_node_value, text_node_bold, text_node_italic.
    repeat split; try done.
    + by apply Forall_in_LF.
    + by apply Forall_in_LF.
    + by apply not_LF_end.
    + by apply not_LF_end.
    + by destruct bold.
    + by destruct italic.
Qed.

(** What the resolver returns for an anchor. *)
Lemma parse_inline_anchor name attrs contents bold italic :
  lower name = lit "a" ->
  _parse_inline (Tag name attrs contents) bold italic
  = let children := resolve_children contents bold italic in
    [ Dict [ (lit "type", FStr (lit "link"));
             (lit "url", of_optional (attrs !! lit "href"));
             (lit "title", of_optional (attrs !! lit "title"));
             (lit "target", of_optional (attrs !! lit "target"));
             (lit "children",
               FList (if truth children then children
                      else [_text_node (get_text (Tag name attrs contents))
                              bold italic])) ] ].
Proof.
  intros Hn. rewrite parse_inline_tag, Hn. cbn zeta.
  change (bold_below (lit "a") bold) with bold.
  change (italic_below (lit "a") italic) with italic.
  reflexivity.
Qed.

(** C2, as the claim words it, fails on the anchor that holds one newline:
    nothing of it resolves, its extracted text is the newline, and the
    value of the synthetic text node is the empty string. *)
Lemma anchor_fallback_value_counterexample :
  let anchor := Tag (lit "a") ∅ [NavigableString PlainString LF] in
  lower (lit "a") = lit "a"
  /\ resolve_children (contents_of anchor) false false = []
  /\ get_text anchor = LF
  /\ ~ (exists link t,
          _parse_inline anchor false false = [link]
          /\ get link (lit "children") = Some (FList [t])
          /\ get t (lit "value") = Some (FStr (get_text anchor))).
Proof.
  repeat split; try reflexivity.
  intros [link [t [Hl [Hc Hv]]]].
  vm_compute in Hl. injection Hl as <-.
  vm_compute in Hc. injection Hc as <-.
  vm_compute in Hv. discriminate Hv.
Qed.

(** C2 (amended): for every anchor and every inherited context the
    resolver returns exactly one link node.  Its "url", "title" and
    "target" keys are always present and hold the anchor's href, title and
    target attributes as they are, [None] for an absent attribute.  Its
    children are the resolutions of the anchor's direct children under the
    same context, concatenated in order; when that concatenation is empty
    they are a single text node whose value is the anchor's extracted text
    without the newlines at its two ends, with the inherited flags. *)
Theorem anchor_resolution name attrs contents bold italic :
  lower name = lit "a" ->
  exists link kids,
    _parse_inline (Tag name attrs contents) bold italic = [link]
    /\ get link (lit "type") = Some (FStr (lit "link"))
    /\ get link (lit "url")
       = Some (match attrs !! lit "href" with
               | Some v => FStr v | None => FNone end)
    /\ get link (lit "title")
       = Some (match attrs !! lit "title" with
               | Some v => FStr v | None => FNone end)
    /\ get link (lit "target")
       = Some (match attrs !! lit "target" with
               | Some v => FStr v | None => FNone end)
    /\ get link (lit "children") = Some (FList kids)
    /\ ((resolve_children contents bold italic <> []
         /\ kids = resolve_children contents bold italic)
        \/ (resolve_children contents bold italic = []
            /\ exists t,
                kids = [t]
                /\ get t (lit "type") = Some (FStr (lit "text"))
                /\ get t (lit "value")
                   = Some (FStr (strip (Some LF)
                                   (get_text (Tag name attrs contents))))
                /\ get t (lit "bold") = flag bold
                /\ get t (lit "italic") = flag italic)).
Proof.
  intros Hn. rewrite (parse_inline_anchor _ _ _ _ _ Hn). cbn zeta.
  eexists _, _. split; [reflexivity|].
  repeat (split; [reflexivity|]).
  destruct (resolve_children contents bold italic) as [|k ks] eqn:Hk.
  - right. split; [done|]. eexists. split; [reflexivity|].
    by rewrite text_node_type, text_node_value, text_node_bold,
      text_node_italic.
  - left. by split.
Qed.

Lemma anchor_resolution_witness :
  lower (lit "A") = lit "a"
  /\ exists link kids,
      _parse_inline (Tag (lit "A") {[ lit "href" := lit "x" ]}
                       [NavigableString PlainString (lit "go")])
        true false = [link]
      /\ get link (lit "url") = Some (FStr (lit "x"))
      /\ get link (lit "title") = Some FNone
      /\ get link (lit "children") = Some (FList kids).
Proof.
  split; [reflexivity|].
  destruct (anchor_resolution (lit "A") {[ lit "href" := lit "x" ]}
              [NavigableString PlainString (lit "go")] true false eq_refl)
    as [link [kids [H1 [_ [H2 [H3 [_ [H4 _]]]]]]]].
  exists link, kids. repeat split; assumption.
Defined.

(** C10: an anchor whose whole content is one whitespace-only text.  The
    text resolves to nothing on its own, so the link falls back on the
    extracted text: its children are exactly one text node whose value is
    that whitespace without the newlines at its two ends.  The value is
    whitespace-only, and empty only when the text was nothing but
    newlines. *)
Theorem whitespace_anchor_keeps_text name attrs cls (ws : str) bold italic :
  lower name = lit "a" ->
  interesting cls = true ->
  Forall (fun c => isspace c = true) ws ->
  exists link t,
    _parse_inline (NavigableString cls ws) bold italic = []
    /\ _parse_inline (Tag name attrs [NavigableString cls ws]) bold italic
       = [link]
    /\ get link (lit "type") = Some (FStr (lit "link"))
    /\ get link (lit "children") = Some (FList [t])
    /\ get t (lit "type") = Some (FStr (lit "text"))
    /\ get t (lit "value") = Some (FStr (strip (Some LF) ws))
    /\ Forall (fun c => isspace c = true) (strip (Some LF) ws)
    /\ (strip (Some LF) ws = [] <-> Forall (fun c => c = 10) ws).
Proof.
  intros Hn Hcls Hws.
  assert (Hstr : forall b i, _parse_inline (NavigableString cls ws) b i = []).
  { intros b i. rewrite parse_inline_string.
    apply (strip_nil None) in Hws. by rewrite Hws. }
  rewrite (parse_inline_anchor _ _ _ _ _ Hn). cbn zeta.
  unfold resolve_children. cbn [map concat]. rewrite Hstr. cbn [app truth].
  cbn [get_text map concat]. rewrite Hcls, app_nil_r.
  eexists _, _. split; [done|]. split; [reflexivity|].
  split; [reflexivity|]. split; [reflexivity|].
  rewrite text_node_type, text_node_value.
  split; [done|]. split; [done|]. split.
  - destruct (strip_spec (Some LF) ws) as [pre [post [Heq _]]].
    rewrite Heq in Hws. apply Forall_app in Hws as [_ Hws].
    by apply Forall_app in Hws as [Hws _].
  - rewrite (strip_nil (Some LF)). split.
    + apply Forall_in_LF.
    + intros H. eapply Forall_impl; [exact H|]. by intros c ->.
Qed.

Lemma whitespace_anchor_keeps_text_witness :
  lower (lit "a") = lit "a"
  /\ interesting PlainString = true
  /\ Forall (fun c => isspace c = true) (lit "   ")
  /\ exists link t,
      _parse_inline (Tag (lit "a") {[ lit "href" := lit "x" ]}
                       [NavigableString PlainString (lit "   ")])
        false false = [link]
      /\ get link (lit "children") = Some (FList [t])
      /\ get t (lit "value") = Some (FStr (lit "   ")).
Proof.
  assert (Hws : Forall (fun c => isspace c = true) (lit "   "))
    by (repeat constructor).
  split; [reflexivity|]. split; [reflexivity|]. split; [exact Hws|].
  destruct (whitespace_anchor_keeps_text (lit "a")
              {[ lit "href" := lit "x" ]} PlainString (lit "   ")
              false false eq_refl eq_refl Hws)
    as [link [t [_ [H1 [_ [H2 [_ [H3 _]]]]]]]].
  exists link, t. repeat split; assumption.
Defined.

(** ** Inherited formatting *)

Lemma Forall_text_nodes (P : RichTextNode -> Prop) (l : list RichTextNode) :
  Forall (fun n => is_text n = true -> P n) (forest_nodes l) ->
  Forall P (text_nodes l).
Proof.
  unfold text_nodes. induction 1 as [|n ns Hn _ IH]; simpl; [constructor|].
  destruct (is_text n) eqn:E; [constructor; auto | auto].
Qed.

(** Every text node the resolver returns carries the flags of the context
    it was called in. *)
Lemma text_nodes_carry_context element (bold italic : bool) :
  Forall (fun n => is_text n = true ->
                   (bold = true -> carries (lit "bold") n)
                   /\ (italic = true -> carries (lit "italic") n))
         (forest_nodes (_parse_inline element bold italic)).
Proof.
  apply (parse_inline_invariant
           (fun b i n => is_text n = true ->
                         (b = true -> carries (lit "bold") n)
                         /\ (i = true -> carries (lit "italic") n))).
  - intros b i b' i' n Hb Hi H Ht. destruct (H Ht) as [H1 H2]. split; auto.
  - intros value b i _. unfold carries.
    rewrite text_node_bold, text_node_italic. by split; intros ->.
  - intros b i url title target kids Ht. by vm_compute in Ht.
Qed.

(** The resolver sees the context of a tag only through what the tag hands
    down. *)
Lemma parse_inline_tag_context name attrs contents bold italic :
  _parse_inline (Tag name attrs contents) bold italic
  = _parse_inline (Tag name attrs contents)
      (bold_below (lower name) bold) (italic_below (lower name) italic).
Proof.
  rewrite !parse_inline_tag. cbn zeta.
  assert (Hb : bold_below (lower name) (bold_below (lower name) bold)
               = bold_below (lower name) bold)
    by (unfold bold_below; by destruct (bool_decide _)).
  assert (Hi : italic_below (lower name) (italic_below (lower name) italic)
               = italic_below (lower name) italic)
    by (unfold italic_below; by repeat destruct (bool_decide _)).
  by rewrite Hb, Hi.
Qed.

(** C4: inherited formatting accumulates and is never cleared.  Under a
    context in which bold is set, every text node the resolver returns for
    an element, at any depth and whatever tags lie in between, carries
    "bold": [True]; the same for italic.  A [strong] or [b] element sets
    bold for its subtree, an [em] or [i] element sets italic. *)
Theorem formatting_accumulates :
  (forall element bold italic,
      bold = true ->
      Forall (carries (lit "bold"))
             (text_nodes (_parse_inline element bold italic)))
  /\ (forall element bold italic,
        italic = true ->
        Forall (carries (lit "italic"))
               (text_nodes (_parse_inline element bold italic)))
  /\ (forall name attrs contents bold italic,
        lower name ∈ [lit "strong"; lit "b"] ->
        Forall (carries (lit "bold"))
               (text_nodes (_parse_inline (Tag name attrs contents)
                              bold italic)))
  /\ (forall name attrs contents bold italic,
        lower name ∈ [lit "em"; lit "i"] ->
        Forall (carries (lit "italic"))
               (text_nodes (_parse_inline (Tag name attrs contents)
                              bold italic))).
Proof.
  assert (Hbold : forall element bold italic, bold = true ->
            Forall (carries (lit "bold"))
                   (text_nodes (_parse_inline element bold italic))).
  { intros element bold italic Hb. apply Forall_text_nodes.
    eapply Forall_impl; [apply text_nodes_carry_context|].
    intros n H Ht. by apply (H Ht). }
  assert (Hitalic : forall element bold italic, italic = true ->
            Forall (carries (lit "italic"))
                   (text_nodes (_parse_inline element bold italic))).
  { intros element bold italic Hi. apply Forall_text_nodes.
    eapply Forall_impl; [apply text_nodes_carry_context|].
    intros n H Ht. by apply (H Ht). }
  repeat split; [exact Hbold | exact Hitalic | |].
  - intros name attrs contents bold italic Hn.
    rewrite parse_inline_tag_context. apply Hbold.
    unfold bold_below. by rewrite bool_decide_eq_true_2.
  - intros name attrs contents bold italic Hn.
    rewrite parse_inline_tag_context. apply Hitalic.
    rewrite !elem_of_cons in Hn.
    destruct Hn as [-> | [-> | Hn]]; [reflexivity | reflexivity |].
    by apply elem_of_nil in Hn.
Qed.

Lemma formatting_accumulates_witness :
  Forall (carries (lit "bold"))
    (text_nodes
       (_parse_inline
          (Tag (lit "span") ∅
             [ NavigableString PlainString (lit "x");
               Tag (lit "a") ∅ [NavigableString PlainString (lit "y")] ])
          true false))
  /\ lower (lit "EM") ∈ [lit "em"; lit "i"]
  /\ Forall (carries (lit "italic"))
       (text_nodes
          (_parse_inline
             (Tag (lit "EM") ∅ [NavigableString PlainString (lit "z")])
             false false)).
Proof.
  destruct formatting_accumulates as [Hb [_ [_ Hi]]].
  assert (Hn : lower (lit "EM") ∈ [lit "em"; lit "i"])
    by (apply (bool_decide_eq_true_1 _); reflexivity).
  split; [by apply Hb|]. split; [exact Hn|]. by apply Hi.
Defined.

(** ** The top-level branches *)

(** C1, as the claim words it, fails on a top-level [<strong>x</strong>]:
    the tag has no branch of its own, and the paragraph appended for it
    holds the text in bold, not the text resolved without formatting. *)
Lemma fallback_children_counterexample :
  let node := Tag (lit "strong") ∅ [NavigableString PlainString (lit "x")] in
  (lower (lit "strong") ∉ block_tags)
  /\ visit [] node
     = Ok [ Dict [ (lit "type", FStr (lit "paragraph"));
                   (lit "children",
                     FList [ Dict [ (lit "type", FStr (lit "text"));
                                    (lit "value", FStr (lit "x"));
                                    (lit "bold", FBool true) ] ]) ] ]
  /\ visit [] node
     <> Ok ([] ++ [ Dict [ (lit "type", FStr (lit "paragraph"));
                           (lit "children",
                             FList (resolve_children (contents_of node)
                                      false false)) ] ]).
Proof.
  split; [|split].
  - apply (bool_decide_eq_false_1 _). reflexivity.
  - reflexivity.
  - vm_compute. discriminate.
Qed.

(** C1 (amended): for every top-level element whose lowered tag name is
    none of h1..h6, p, ul, ol, blockquote, the loop succeeds and appends
    exactly one paragraph node, whose children are what the resolver
    returns for the element itself without inherited formatting.  These
    are the resolutions of its direct children without inherited
    formatting, concatenated in document order, when the tag is not one
    the resolver reacts to; under [strong]/[b] the children are resolved
    in bold, under [em]/[i] in italic, and an anchor gives its one link
    node. *)
Theorem fallback_paragraph root_children name attrs contents :
  lower name ∉ block_tags ->
  visit root_children (Tag name attrs contents)
  = Ok (root_children ++
          [ Dict [ (lit "type", FStr (lit "paragraph"));
                   (lit "children",
                     FList (_parse_inline (Tag name attrs contents)
                              false false)) ] ])
  /\ (lower name ∉ inline_tags ->
      _parse_inline (Tag name attrs contents) false false
      = resolve_children contents false false)
  /\ (lower name ∈ [lit "strong"; lit "b"] ->
      _parse_inline (Tag name attrs contents) false false
      = resolve_children contents true false)
  /\ (lower name ∈ [lit "em"; lit "i"] ->
      _parse_inline (Tag name attrs contents) false false
      = resolve_children contents false true)
  /\ (lower name = lit "a" ->
      exists link,
        _parse_inline (Tag name attrs contents) false false = [link]
        /\ get link (lit "type") = Some (FStr (lit "link"))).
Proof.
  intros Hn. split; [by apply visit_fallback|].
  split; [apply parse_inline_unwrap|]. split; [|split].
  - intros H. rewrite parse_inline_tag. rewrite !elem_of_cons in H.
    destruct H as [-> | [-> | H]]; [reflexivity | reflexivity |].
    by apply elem_of_nil in H.
  - intros H. rewrite parse_inline_tag. rewrite !elem_of_cons in H.
    destruct H as [-> | [-> | H]]; [reflexivity | reflexivity |].
    by apply elem_of_nil in H.
  - intros H. rewrite (parse_inline_anchor _ _ _ _ _ H).
    eexists. split; reflexivity.
Qed.

Lemma fallback_paragraph_witness :
  (lower (lit "DIV") ∉ block_tags)
  /\ visit [] (Tag (lit "DIV") ∅
                 [ NavigableString PlainString (lit "a");
                   Tag (lit "b") ∅ [NavigableString PlainString (lit "c")] ])
     = Ok [ Dict [ (lit "type", FStr (lit "paragraph"));
                   (lit "children",
                     FList [ Dict [ (lit "type", FStr (lit "text"));
                                    (lit "value", FStr (lit "a")) ];
                             Dict [ (lit "type", FStr (lit "text"));
                                    (lit "value", FStr (lit "c"));
                                    (lit "bold", FBool true) ] ]) ] ].
Proof.
  assert (Hn : lower (lit "DIV") ∉ block_tags)
    by (apply (bool_decide_eq_false_1 _); reflexivity).
  split; [exact Hn|].
  destruct (fallback_paragraph [] (lit "DIV") ∅
              [ NavigableString PlainString (lit "a");
                Tag (lit "b") ∅ [NavigableString PlainString (lit "c")] ] Hn)
    as [Hv _].
  exact Hv.
Defined.

(** C5: a top-level [ul] or [ol].  Only the direct children that are [li]
    tags are looked at; each of them whose resolved children are non-empty
    gives one list-item node around those children, in order, and the
    others give nothing.  With no item left the root is not extended at
    all; otherwise one list node is appended, "unordered" for [ul] and
    "ordered" for [ol].  In particular the document made of one [ul] with
    one empty [li] converts to a root without children. *)
Theorem list_block BeautifulSoup root_children name attrs contents :
  lower name ∈ [lit "ul"; lit "ol"] ->
  let lis := List.filter (is_tag_named (lit "li")) contents in
  let items :=
    map (fun li => Dict [ (lit "type", FStr (lit "list-item"));
                          (lit "children",
                            FList (_parse_inline li false false)) ])
        (List.filter (fun li => truth (_parse_inline li false false)) lis) in
  exists list_type,
    ((lower name = lit "ul" /\ list_type = lit "unordered")
     \/ (lower name = lit "ol" /\ list_type = lit "ordered"))
    /\ visit root_children (Tag name attrs contents)
       = Ok (if truth items then
               root_children ++
                 [ Dict [ (lit "type", FStr (lit "list"));
                          (lit "listType", FStr list_type);
                          (lit "children", FList items) ] ]
             else root_children)
    /\ (items = []
        <-> Forall (fun li => _parse_inline li false false = []) lis)
    /\ Forall (fun li => _parse_inline li false false
                         = resolve_children (contents_of li) false false) lis
    /\ (BeautifulSoup (lit "<ul><li></li></ul>")
        = Ok [Tag (lit "ul") ∅ [Tag (lit "li") ∅ []]] ->
        html_to_richtext BeautifulSoup (lit "<ul><li></li></ul>")
        = Ok (Dict [ (lit "type", FStr (lit "root"));
                     (lit "children", FList []) ])).
Proof.
  intros Hn lis items.
  exists (if bool_decide (lower name = lit "ul")
          then lit "unordered" else lit "ordered").
  split; [|split; [|split; [|split]]].
  - rewrite !elem_of_cons in Hn.
    destruct Hn as [Hn | [Hn | Hn]]; [| |by apply elem_of_nil in Hn];
      rewrite Hn; [by left | by right].
  - rewrite (visit_list _ _ _ _ Hn). cbn zeta. unfold find_all_direct.
    fold lis. fold items. by destruct (truth items).
  - subst items. generalize lis. clear. intros lis.
    induction lis as [|li lis IH]; [by split; [constructor|]|].
    cbn [List.filter]. destruct (_parse_inline li false false) eqn:Hli.
    + cbn [truth]. rewrite IH. split; [intros H; by constructor|].
      by inversion 1.
    + cbn [truth map]. split; [done|].
      intros H. inversion H. congruence.
  - subst lis. clear. induction contents as [|c cs IH]; [constructor|].
    cbn [List.filter]. destruct (is_tag_named (lit "li") c) eqn:Hc; [|done].
    constructor; [|done].
    destruct c as [|n a k]; [done|]. unfold is_tag_named in Hc.
    apply bool_decide_eq_true in Hc. subst n.
    apply parse_inline_unwrap. apply (bool_decide_eq_false_1 _). reflexivity.
  - intros Hsoup.
    by rewrite (html_to_richtext_parsed BeautifulSoup
                  (lit "<ul><li></li></ul>") _ eq_refl Hsoup).
Qed.

Lemma list_block_witness :
  lower (lit "OL") ∈ [lit "ul"; lit "ol"]
  /\ visit [] (Tag (lit "OL") ∅
                 [ Tag (lit "li") ∅ [NavigableString PlainString (lit "one")];
                   NavigableString PlainString LF;
                   Tag (lit "li") ∅ [];
                   Tag (lit "p") ∅ [NavigableString PlainString (lit "no")] ])
     = Ok [ Dict [ (lit "type", FStr (lit "list"));
                   (lit "listType", FStr (lit "ordered"));
                   (lit "children",
                     FList [ Dict [ (lit "type", FStr (lit "list-item"));
                                    (lit "children",
                                      FList [ Dict [ (lit "type", FStr (lit "text"));
                                                     (lit "value", FStr (lit "one")) ] ]) ] ]) ] ]
  /\ html_to_richtext
       (fun _ => Ok [Tag (lit "ul") ∅ [Tag (lit "li") ∅ []]])
       (lit "<ul><li></li></ul>")
     = Ok (Dict [ (lit "type", FStr (lit "root"));
                  (lit "children", FList []) ]).
Proof.
  assert (Hn : lower (lit "OL") ∈ [lit "ul"; lit "ol"])
    by (apply (bool_decide_eq_true_1 _); reflexivity).
  split; [exact Hn|].
  destruct (list_block
              (fun _ => Ok [Tag (lit "ul") ∅ [Tag (lit "li") ∅ []]]) []
              (lit "OL") ∅
              [ Tag (lit "li") ∅ [NavigableString PlainString (lit "one")];
                NavigableString PlainString LF;
                Tag (lit "li") ∅ [];
                Tag (lit "p") ∅ [NavigableString PlainString (lit "no")] ]
              Hn)
    as [list_type [Ht [Hv [_ [_ Hroot]]]]].
  split; [|exact (Hroot eq_refl)].
  destruct Ht as [[Hul _] | [_ ->]]; [discriminate Hul | exact Hv].
Defined.

(** C6: a top-level [blockquote].  Exactly one quote node is appended; its
    children are a sequence of length one, and that one child is a
    paragraph node whose children are what the resolver returns for the
    blockquote's content without inherited formatting.  The paragraph is
    there whether or not it has children. *)
Theorem blockquote_block root_children name attrs contents :
  lower name = lit "blockquote" ->
  exists quote kids para,
    visit root_children (Tag name attrs contents)
    = Ok (root_children ++ [quote])
    /\ get quote (lit "type") = Some (FStr (lit "quote"))
    /\ get quote (lit "children") = Some (FList kids)
    /\ length kids = 1%nat
    /\ kids = [para]
    /\ get para (lit "type") = Some (FStr (lit "paragraph"))
    /\ get para (lit "children")
       = Some (FList (resolve_children contents false false))
    /\ _parse_inline (Tag name attrs contents) false false
       = resolve_children contents false false.
Proof.
  intros Hn.
  assert (Hu : _parse_inline (Tag name attrs contents) false false
               = resolve_children contents false false).
  { apply parse_inline_unwrap. rewrite Hn.
    apply (bool_decide_eq_false_1 _). reflexivity. }
  rewrite (visit_blockquote _ _ _ _ Hn), Hu.
  eexists _, _, _. split; [reflexivity|].
  repeat (split; [reflexivity|]). reflexivity.
Qed.

Lemma blockquote_block_witness :
  lower (lit "BlockQuote") = lit "blockquote"
  /\ exists quote para,
      visit [] (Tag (lit "BlockQuote") ∅ []) = Ok [quote]
      /\ get quote (lit "children") = Some (FList [para])
      /\ get para (lit "type") = Some (FStr (lit "paragraph"))
      /\ get para (lit "children") = Some (FList []).
Proof.
  split; [reflexivity|].
  destruct (blockquote_block [] (lit "BlockQuote") ∅ [] eq_refl)
    as [quote [kids [para [Hv [_ [Hk [_ [-> [Ht [Hc _]]]]]]]]]].
  exists quote, para. repeat split; assumption.
Defined.

(** C7: a top-level heading [h1] .. [h6].  One heading node is appended;
    its level is the number written in the tag name, and its children are
    what the resolver returns for the heading's content without inherited
    formatting.  In particular the document made of [<h3>Title</h3>]
    converts to a root holding one heading of level 3 around one text node
    with the value "Title" and neither a "bold" nor an "italic" key. *)
Theorem heading_block BeautifulSoup root_children name attrs contents (i : N) :
  1 <= i <= 6 ->
  lower name = lit "h" ++ str_of_digit i ->
  visit root_children (Tag name attrs contents)
  = Ok (root_children ++
          [ Dict [ (lit "type", FStr (lit "heading"));
                   (lit "level", FInt (Z.of_N i));
                   (lit "children",
                     FList (resolve_children contents false false)) ] ])
  /\ _parse_inline (Tag name attrs contents) false false
     = resolve_children contents false false
  /\ (BeautifulSoup (lit "<h3>Title</h3>")
      = Ok [Tag (lit "h3") ∅ [NavigableString PlainString (lit "Title")]] ->
      html_to_richtext BeautifulSoup (lit "<h3>Title</h3>")
      = Ok (Dict [ (lit "type", FStr (lit "root"));
                   (lit "children",
                     FList [ Dict [ (lit "type", FStr (lit "heading"));
                                    (lit "level", FInt 3);
                                    (lit "children",
                                      FList [ Dict [ (lit "type", FStr (lit "text"));
                                                     (lit "value", FStr (lit "Title")) ] ]) ] ]) ])).
Proof.
  intros Hi Hn.
  assert (Hu : _parse_inline (Tag name attrs contents) false false
               = resolve_children contents false false).
  { apply parse_inline_unwrap, block_tag_not_inline.
    unfold block_tags. apply elem_of_app. left.
    apply heading_tags_spec. by exists i. }
  rewrite (visit_heading _ _ _ _ i Hi Hn), Hu.
  split; [reflexivity|]. split; [reflexivity|].
  intros Hsoup.
  by rewrite (html_to_richtext_parsed BeautifulSoup
                (lit "<h3>Title</h3>") _ eq_refl Hsoup).
Qed.

Lemma heading_block_witness :
  1 <= 3 <= 6
  /\ lower (lit "H3") = lit "h" ++ str_of_digit 3
  /\ visit [] (Tag (lit "H3") ∅ [NavigableString PlainString (lit "Title")])
     = Ok [ Dict [ (lit "type", FStr (lit "heading"));
                   (lit "level", FInt 3);
                   (lit "children",
                     FList [ Dict [ (lit "type", FStr (lit "text"));
                                    (lit "value", FStr (lit "Title")) ] ]) ] ]
  /\ html_to_richtext
       (fun _ => Ok [Tag (lit "h3") ∅
                       [NavigableString PlainString (lit "Title")]])
       (lit "<h3>Title</h3>")
     = Ok (Dict [ (lit "type", FStr (lit "root"));
                  (lit "children",
                    FList [ Dict [ (lit "type", FStr (lit "heading"));
                                   (lit "level", FInt 3);
                                   (lit "children",
                                     FList [ Dict [ (lit "type", FStr (lit "text"));
                                                    (lit "value", FStr (lit "Title")) ] ]) ] ]) ]).
Proof.
  assert (Hi : 1 <= 3 <= 6) by lia.
  split; [exact Hi|]. split; [reflexivity|].
  destruct (heading_block
              (fun _ => Ok [Tag (lit "h3") ∅
                              [NavigableString PlainString (lit "Title")]])
              [] (lit "H3") ∅ [NavigableString PlainString (lit "Title")]
              3 Hi eq_refl)
    as [Hv [_ Hroot]].
  split; [exact Hv | exact (Hroot eq_refl)].
Defined.

(** ** The whole conversion *)

Lemma type_known_spec (n : RichTextNode) :
  type_known n = true
  <-> exists t, get n (lit "type") = Some (FStr t) /\ t ∈ node_types.
Proof.
  unfold type_known, type_of. split.
  - destruct (get n (lit "type")) as [[t| | | |]|]; try done.
    intros H. exists t. split; [done|]. by apply bool_decide_eq_true in H.
  - intros [t [-> Ht]]. by apply bool_decide_eq_true.
Qed.

(** The conversion fails only when the parser does, with the parser's
    exception. *)
Lemma html_to_richtext_result BeautifulSoup html_content :
  (exists root_children,
      html_to_richtext BeautifulSoup html_content
      = Ok (Dict [ (lit "type", FStr (lit "root"));
                   (lit "children", FList root_children) ])
      /\ Forall (fun n => type_known n = true) (forest_nodes root_children))
  \/ (exists e,
        html_to_richtext BeautifulSoup html_content = Raise e
        /\ truth html_content = true
        /\ BeautifulSoup html_content = Raise e).
Proof.
  unfold html_to_richtext.
  destruct (truth html_content) eqn:Ht; cbn [negb].
  - destruct (BeautifulSoup html_content) as [soup|e] eqn:Hs.
    + left. destruct (for_top_level_appends (top_level soup))
        as [out [Hout Hk]].
      exists out. cbn. by rewrite Hout.
    + right. by exists e.
  - left. exists []. split; [done | constructor].
Qed.

(** C8: for every input string on which the parser returns, the
    conversion returns a tree whose outermost node has type "root" and in
    which every node, at any depth, has a "type" key holding one of root,
    paragraph, heading, list, list-item, quote, text, link.  It raises
    only what the parser raised. *)
Theorem node_types_closed BeautifulSoup html_content :
  match html_to_richtext BeautifulSoup html_content with
  | Ok root =>
      get root (lit "type") = Some (FStr (lit "root"))
      /\ Forall (fun n => exists t,
                    get n (lit "type") = Some (FStr t) /\ t ∈ node_types)
                (nodes root)
  | Raise e =>
      truth html_content = true /\ BeautifulSoup html_content = Raise e
  end.
Proof.
  destruct (html_to_richtext_result BeautifulSoup html_content)
    as [[root_children [-> Hk]] | [e [-> H]]]; [|exact H].
  split; [reflexivity|].
  rewrite nodes_container. constructor.
  - exists (lit "root"). split; [reflexivity|].
    apply (bool_decide_eq_true_1 _). reflexivity.
  - eapply Forall_impl; [exact Hk|]. intros n. apply type_known_spec.
Qed.

(** C9: on a falsy input, which for a string means the empty string, the
    conversion returns the root with an empty children sequence, whatever
    the parser would do: the parser is not asked. *)
Theorem falsy_input_empty_root BeautifulSoup html_content :
  truth html_content = false ->
  html_content = []
  /\ html_to_richtext BeautifulSoup html_content
     = Ok (Dict [ (lit "type", FStr (lit "root"));
                  (lit "children", FList []) ]).
Proof.
  intros Ht. split; [by apply truth_false_nil|].
  unfold html_to_richtext. by rewrite Ht.
Qed.

Lemma falsy_input_empty_root_witness :
  truth (lit "") = false
  /\ html_to_richtext (fun _ => Raise ParserError) (lit "")
     = Ok (Dict [ (lit "type", FStr (lit "root"));
                  (lit "children", FList []) ]).
Proof.
  split; [reflexivity|].
  exact (proj2 (falsy_input_empty_root (fun _ => Raise ParserError)
                  (lit "") eq_refl)).
Defined.

(* ===================================================================== *)
(** * Further properties of the helpers                                   *)
(* ===================================================================== *)

Lemma lstrip_by_fix p (s : str) :
  (forall c, head s = Some c -> p c = false) -> lstrip_by p s = s.
Proof.
  destruct s as [|d s]; simpl; [done|]. intros H. by rewrite (H d eq_refl).
Qed.

Lemma rstrip_by_fix p (s : str) :
  (forall c, last s = Some c -> p c = false) -> rstrip_by p s = s.
Proof.
  intros H. unfold rstrip_by. rewrite lstrip_by_fix; [apply rev_involutive|].
  intros c Hc. apply H. by rewrite <- (rev_involutive s), last_rev.
Qed.

Lemma lstrip_by_padding p (pre s : str) :
  Forall (fun c => p c = true) pre -> lstrip_by p (pre ++ s) = lstrip_by p s.
Proof. induction 1 as [|c pre Hc _ IH]; simpl; [done|]. by rewrite Hc. Qed.

Lemma rstrip_by_padding p (s post : str) :
  Forall (fun c => p c = true) post -> rstrip_by p (s ++ post) = rstrip_by p s.
Proof.
  intros H. unfold rstrip_by. rewrite rev_app_distr, lstrip_by_padding; [done|].
  by apply Forall_rev.
Qed.

Lemma strip_idempotent (chars : option str) (s : str) :
  strip chars (strip chars s) = strip chars s.
Proof.
  destruct (strip_spec chars s) as [_ [_ [_ [_ [_ [Hhead Hlast]]]]]].
  unfold strip at 1. by rewrite lstrip_by_fix, rstrip_by_fix.
Qed.

Lemma strip_padding (chars : option str) (pre s post : str) :
  let p := match chars with
           | None => isspace
           | Some cs => fun c => bool_decide (c ∈ cs)
           end in
  Forall (fun c => p c = true) pre ->
  Forall (fun c => p c = true) post ->
  strip chars (pre ++ s ++ post) = strip chars s.
Proof.
  intros p Hpre Hpost. unfold strip. fold p.
  rewrite lstrip_by_padding by done.
  destruct (lstrip_by p s) as [|c t] eqn:Hs.
  - apply lstrip_by_nil in Hs.
    assert (Hall : Forall (fun c => p c = true) (s ++ post))
      by (by apply Forall_app).
    apply lstrip_by_nil in Hall. by rewrite Hall.
  - destruct (lstrip_by_split p s) as [pre' [Heq Hpre']].
    rewrite Heq at 1. rewrite <- app_assoc, lstrip_by_padding by done.
    rewrite Hs. cbn [app lstrip_by].
    pose proof (lstrip_by_head p s c) as Hc. rewrite Hs in Hc.
    rewrite (Hc eq_refl). by rewrite app_comm_cons, rstrip_by_padding.
Qed.

(** X1: newlines around the value do not reach the text node: the node
    built from a value padded with newlines on either side is the node
    built from the value, and building it from an already stripped value
    changes nothing. *)
Theorem text_node_ignores_newline_padding (value : str) (a b : nat)
    (bold italic : bool) :
  _text_node (repeat 10 a ++ value ++ repeat 10 b) bold italic
  = _text_node value bold italic
  /\ _text_node (strip (Some LF) value) bold italic
     = _text_node value bold italic.
Proof.
  assert (Hpad : forall n, Forall (fun c => bool_decide (c ∈ LF) = true)
                                  (repeat 10 n)).
  { intros n. induction n; simpl; constructor; [reflexivity | done]. }
  unfold _text_node.
  by rewrite (strip_padding (Some LF)), strip_idempotent.
Qed.

Lemma Forall_forest_roots (P : RichTextNode -> Prop) (l : list RichTextNode) :
  Forall P (forest_nodes l) -> Forall P l.
Proof.
  induction l as [|n l IH]; [constructor|].
  rewrite forest_nodes_cons. destruct n as [its]. cbn [nodes].
  rewrite <- app_comm_cons. intros H. inversion H as [|? ? Hn Hrest]; subst.
  constructor; [done|]. apply IH. by apply Forall_app in Hrest as [_ ?].
Qed.

Lemma parse_inline_inline_type element (bold italic : bool) :
  Forall inline_type (forest_nodes (_parse_inline element bold italic)).
Proof.
  apply (parse_inline_invariant (fun _ _ n => inline_type n)).
  - auto.
  - intros value b i. left. unfold type_of. by rewrite text_node_type.
  - intros. by right.
Qed.

(** X2: the resolver never returns a block.  Every node of the sequence
    it returns, and every node below one of them, is a text node or a link
    node. *)
Theorem resolver_returns_inline_nodes element (bold italic : bool) :
  Forall inline_type (_parse_inline element bold italic)
  /\ Forall inline_type (forest_nodes (_parse_inline element bold italic)).
Proof.
  split; [apply Forall_forest_roots|]; apply parse_inline_inline_type.
Qed.

(** X3: a text node made from a raw string is never blank: when the
    resolver keeps a string, the value of the node holds a code point that
    is not whitespace. *)
Theorem kept_text_is_not_blank cls (text : str) (bold italic : bool) node :
  _parse_inline (NavigableString cls text) bold italic = [node] ->
  exists value,
    get node (lit "value") = Some (FStr value)
    /\ Exists (fun c => isspace c = false) value.
Proof.
  rewrite parse_inline_string.
  destruct (strip None text) as [|c s] eqn:Hs; [done|]. cbn [truth].
  intros [= <-]. rewrite text_node_value. eexists. split; [reflexivity|].
  destruct (strip_spec (Some LF) text) as [pre [post [Heq [Hpre [Hpost _]]]]].
  destruct (decide (Forall (fun c => isspace c = true)
                           (strip (Some LF) text))) as [Hall|Hex].
  - exfalso. assert (Hw : Forall (fun c => isspace c = true) text).
    { assert (Hlf : forall l, Forall (fun c => bool_decide (c ∈ LF) = true) l
                              -> Forall (fun c => isspace c = true) l).
      { intros l Hl. apply Forall_in_LF in Hl.
        eapply Forall_impl; [exact Hl|]. by intros ? ->. }
      rewrite Heq. repeat apply Forall_app_2; auto. }
    apply (strip_nil None) in Hw. congruence.
  - apply not_Forall_Exists in Hex; [|intros x; apply _].
    eapply Exists_impl; [exact Hex|]. intros x Hx. simpl in Hx.
    by destruct (isspace x).
Qed.

Lemma kept_text_is_not_blank_witness :
  exists value,
    get (_text_node (lit " a ") true false) (lit "value") = Some (FStr value)
    /\ Exists (fun c => isspace c = false) value.
Proof.
  exact (kept_text_is_not_blank PlainString (lit " a ") true false
           (_text_node (lit " a ") true false) eq_refl).
Defined.

Lemma resolve_children_singleton element (bold italic : bool) :
  resolve_children [element] bold italic = _parse_inline element bold italic.
Proof. unfold resolve_children. cbn [map concat]. apply app_nil_r. Qed.

Lemma resolve_children_cons element contents (bold italic : bool) :
  resolve_children (element :: contents) bold italic
  = _parse_inline element bold italic ++ resolve_children contents bold italic.
Proof. reflexivity. Qed.

Lemma parse_inline_bold_tag name attrs contents (bold italic : bool) :
  lower name ∈ [lit "strong"; lit "b"] ->
  _parse_inline (Tag name attrs contents) bold italic
  = resolve_children contents true italic.
Proof.
  intros H. rewrite parse_inline_tag. rewrite !elem_of_cons in H.
  destruct H as [-> | [-> | H]]; [reflexivity | reflexivity |].
  by apply elem_of_nil in H.
Qed.

Lemma parse_inline_italic_tag name attrs contents (bold italic : bool) :
  lower name ∈ [lit "em"; lit "i"] ->
  _parse_inline (Tag name attrs contents) bold italic
  = resolve_children contents bold true.
Proof.
  intros H. rewrite parse_inline_tag. rewrite !elem_of_cons in H.
  destruct H as [-> | [-> | H]]; [reflexivity | reflexivity |].
  by apply elem_of_nil in H.
Qed.

(** X4: bold and italic compose in either order, and the attributes of a
    formatting tag play no part: a strong/b tag around an em/i tag and an
    em/i tag around a strong/b tag both resolve the innermost content in
    bold italic, whatever the context was. *)
Theorem formatting_tags_commute strong em attrs1 attrs2 attrs3 attrs4
    contents (bold italic : bool) :
  lower strong ∈ [lit "strong"; lit "b"] ->
  lower em ∈ [lit "em"; lit "i"] ->
  _parse_inline (Tag strong attrs1 [Tag em attrs2 contents]) bold italic
  = resolve_children contents true true
  /\ _parse_inline (Tag em attrs3 [Tag strong attrs4 contents]) bold italic
     = resolve_children contents true true.
Proof.
  intros Hs He. split.
  - rewrite (parse_inline_bold_tag _ _ _ _ _ Hs), resolve_children_singleton.
    by apply parse_inline_italic_tag.
  - rewrite (parse_inline_italic_tag _ _ _ _ _ He), resolve_children_singleton.
    by apply parse_inline_bold_tag.
Qed.

Lemma formatting_tags_commute_witness :
  lower (lit "B") ∈ [lit "strong"; lit "b"]
  /\ lower (lit "em") ∈ [lit "em"; lit "i"]
  /\ _parse_inline
       (Tag (lit "B") ∅
          [Tag (lit "em") ∅ [NavigableString PlainString (lit "hi")]])
       false false
     = [ Dict [ (lit "type", FStr (lit "text")); (lit "value", FStr (lit "hi"));
                (lit "bold", FBool true); (lit "italic", FBool true) ] ]
  /\ _parse_inline
       (Tag (lit "em") ∅
          [Tag (lit "B") ∅ [NavigableString PlainString (lit "hi")]])
       false false
     = [ Dict [ (lit "type", FStr (lit "text")); (lit "value", FStr (lit "hi"));
                (lit "bold", FBool true); (lit "italic", FBool true) ] ].
Proof.
  assert (Hs : lower (lit "B") ∈ [lit "strong"; lit "b"])
    by (apply (bool_decide_eq_true_1 _); reflexivity).
  assert (He : lower (lit "em") ∈ [lit "em"; lit "i"])
    by (apply (bool_decide_eq_true_1 _); reflexivity).
  split; [exact Hs|]. split; [exact He|].
  exact (formatting_tags_commute (lit "B") (lit "em") ∅ ∅ ∅ ∅
           [NavigableString PlainString (lit "hi")] false false Hs He).
Defined.

(** X5: how many nodes an element resolves to does not depend on the
    inherited context; in particular whether it resolves to nothing does
    not. *)
Theorem resolver_length_context_free element (b i b' i' : bool) :
  length (_parse_inline element b i) = length (_parse_inline element b' i')
  /\ (_parse_inline element b i = [] <-> _parse_inline element b' i' = []).
Proof.
  assert (H : forall b i b' i',
             length (_parse_inline element b i)
             = length (_parse_inline element b' i')).
  { clear. induction element as [cls text | name attrs contents IH]
      using PageElement_tree_ind; intros b i b' i'.
    - rewrite !parse_inline_string. by destruct (truth _).
    - rewrite !parse_inline_tag. cbn zeta.
      destruct (bool_decide (lower name = lit "a")); [done|].
      generalize (bold_below (lower name) b) (italic_below (lower name) i)
                 (bold_below (lower name) b') (italic_below (lower name) i').
      intros c j c' j'. induction IH as [|x xs Hx _ IHxs]; [done|].
      rewrite !resolve_children_cons, !length_app.
      by rewrite (Hx c j c' j'), IHxs. }
  split; [apply H|].
  specialize (H b i b' i').
  destruct (_parse_inline element b i), (_parse_inline element b' i');
    simpl in H; split; congruence.
Qed.

Lemma forallb_Forall_true {A} (f : A -> bool) (l : list A) :
  forallb f l = true <-> Forall (fun x => f x = true) l.
Proof.
  induction l as [|x l IH]; simpl; [by split; [constructor|]|].
  rewrite andb_true_iff, IH. split; [intros []; by constructor|].
  by inversion 1.
Qed.

Lemma resolve_children_nil contents (bold italic : bool) :
  resolve_children contents bold italic = []
  <-> Forall (fun child => _parse_inline child bold italic = []) contents.
Proof.
  induction contents as [|c cs IH]; [by split; [constructor|]|].
  rewrite resolve_children_cons. split.
  - intros H. apply app_eq_nil in H as [H1 H2]. constructor; [done|].
    by apply IH.
  - inversion 1 as [|? ? H1 H2]; subst. rewrite H1. by apply IH.
Qed.

Lemma parse_inline_nil_iff_blank element (bold italic : bool) :
  _parse_inline element bold italic = [] <-> blank element = true.
Proof.
  revert bold italic.
  induction element as [cls text | name attrs contents IH]
    using PageElement_tree_ind; intros bold italic.
  - rewrite parse_inline_string. cbn [blank].
    rewrite forallb_Forall_true, <- (strip_nil None).
    destruct (strip None text); cbn [truth]; split; congruence.
  - rewrite parse_inline_tag. cbn zeta. cbn [blank].
    destruct (bool_decide (lower name = lit "a")); cbn [negb andb];
      [split; congruence|].
    rewrite resolve_children_nil, forallb_Forall_true.
    generalize (bold_below (lower name) bold)
               (italic_below (lower name) italic). intros b i.
    induction IH as [|x xs Hx _ IHxs]; [by split; constructor|].
    split; inversion 1 as [|? ? H1 H2]; subst; constructor.
    + by apply (Hx b i).
    + by apply IHxs.
    + by apply (Hx b i).
    + by apply IHxs.
Qed.

Lemma resolve_children_nil_iff_blank contents (bold italic : bool) :
  resolve_children contents bold italic = []
  <-> forallb blank contents = true.
Proof.
  rewrite resolve_children_nil, forallb_Forall_true.
  induction contents as [|c cs IH]; [by split; constructor|].
  split; inversion 1 as [|? ? H1 H2]; subst; constructor;
    try (by apply IH); by apply (parse_inline_nil_iff_blank c bold italic).
Qed.

(** X6: an element resolves to nothing exactly when its subtree holds no
    anchor and no string with a code point that is not whitespace; a
    sequence of children does when each of them is such. *)
Theorem resolves_to_nothing_iff_blank element contents (bold italic : bool) :
  (_parse_inline element bold italic = [] <-> blank element = true)
  /\ (resolve_children contents bold italic = []
      <-> forallb blank contents = true).
Proof.
  split; [apply parse_inline_nil_iff_blank | apply resolve_children_nil_iff_blank].
Qed.

(* ===================================================================== *)
(** * Further properties of the top-level loop                            *)
(* ===================================================================== *)

(** X7: a string at the top level, of whatever class (a comment is one).
    When it holds nothing but whitespace the root is left as it is;
    otherwise one paragraph is appended around one text node that holds
    the string without the newlines at its ends and has neither a "bold"
    nor an "italic" key. *)
Theorem stray_text_block root_children cls (text : str) :
  (forallb isspace text = true
   /\ visit root_children (NavigableString cls text) = Ok root_children)
  \/
  (forallb isspace text = false
   /\ exists t,
       visit root_children (NavigableString cls text)
       = Ok (root_children ++
               [ Dict [ (lit "type", FStr (lit "paragraph"));
                        (lit "children", FList [t]) ] ])
       /\ items t = [ (lit "type", FStr (lit "text"));
                      (lit "value", FStr (strip (Some LF) text)) ]).
Proof.
  rewrite visit_string.
  destruct (forallb isspace text) eqn:Hw.
  - left. split; [done|]. apply forallb_Forall_true, (strip_nil None) in Hw.
    by rewrite Hw.
  - right. split; [done|]. destruct (strip None text) as [|c s] eqn:Hs.
    + apply (strip_nil None), forallb_Forall_true in Hs. congruence.
    + cbn [truth]. eexists. split; reflexivity.
Qed.

(** X8: a top-level [p].  One paragraph is always appended, around what
    the content resolves to without inherited formatting; the paragraph
    has no children exactly when the content is blank. *)
Theorem paragraph_block root_children name attrs contents :
  lower name = lit "p" ->
  visit root_children (Tag name attrs contents)
  = Ok (root_children ++
          [ Dict [ (lit "type", FStr (lit "paragraph"));
                   (lit "children",
                     FList (resolve_children contents false false)) ] ])
  /\ (resolve_children contents false false = []
      <-> forallb blank contents = true).
Proof.
  intros Hn. split; [|apply resolve_children_nil_iff_blank].
  rewrite (visit_p _ _ _ _ Hn). rewrite parse_inline_unwrap; [done|].
  rewrite Hn. apply (bool_decide_eq_false_1 _). reflexivity.
Qed.

Lemma paragraph_block_witness :
  lower (lit "P") = lit "p"
  /\ visit [] (Tag (lit "P") ∅ [NavigableString PlainString (lit "   ")])
     = Ok [ Dict [ (lit "type", FStr (lit "paragraph"));
                   (lit "children", FList []) ] ].
Proof.
  split; [reflexivity|].
  exact (proj1 (paragraph_block [] (lit "P") ∅
                  [NavigableString PlainString (lit "   ")] eq_refl)).
Defined.

Lemma app_singleton_neq {A} (l : list A) (x : A) : l ++ [x] <> l.
Proof.
  intros H. rewrite <- (app_nil_r l) in H at 2.
  by apply app_inv_head in H.
Qed.

Lemma Ok_append_neq (l : list RichTextNode) (x : RichTextNode) :
  Ok (l ++ [x]) <> Ok l.
Proof. intros [= H]. by apply app_singleton_neq in H. Qed.

Lemma not_in_by_compute (x : str) (l : list str) :
  bool_decide (x ∈ l) = false -> x ∈ l -> False.
Proof. intros H Hin. by apply bool_decide_eq_false in H. Qed.

Lemma heading_not_list (i : N) :
  lit "h" ++ str_of_digit i ∉ [lit "ul"; lit "ol"].
Proof.
  rewrite !elem_of_cons. intros [H | [H | H]];
    [discriminate H | discriminate H | by apply elem_of_nil in H].
Qed.

Lemma visit_noop_iff root_children node :
  visit root_children node = Ok root_children
  <-> match node with
      | NavigableString _ text => forallb isspace text = true
      | Tag name _ contents =>
          lower name ∈ [lit "ul"; lit "ol"]
          /\ forallb blank (find_all_direct (lit "li") contents) = true
      end.
Proof.
  destruct node as [cls text | name attrs contents].
  - rewrite visit_string, forallb_Forall_true, <- (strip_nil None).
    destruct (strip None text); cbn [truth]; split; try done.
    intros H. by apply Ok_append_neq in H.
  - destruct (block_tags_cases (lower name))
      as [[i [Hi Hn]] | [Hn | [Hn | [Hn | Hn]]]].
    + rewrite (visit_heading _ _ _ _ i Hi Hn). split.
      * intros H. by apply Ok_append_neq in H.
      * intros [H _]. rewrite Hn in H. by apply heading_not_list in H.
    + rewrite (visit_p _ _ _ _ Hn). split.
      * intros H. by apply Ok_append_neq in H.
      * intros [H _]. rewrite Hn in H.
        destruct (not_in_by_compute (lit "p") [lit "ul"; lit "ol"] eq_refl H).
    + rewrite (visit_list _ _ _ _ Hn). cbn zeta.
      generalize (find_all_direct (lit "li") contents). intros lis.
      assert (Hiff : List.filter
                       (fun li => truth (_parse_inline li false false)) lis = []
                     <-> forallb blank lis = true).
      { induction lis as [|li lis IH]; [done|]. cbn [List.filter forallb].
        pose proof (parse_inline_nil_iff_blank li false false) as Hb.
        destruct (_parse_inline li false false) eqn:Hli; cbn [truth].
        - rewrite (proj1 Hb eq_refl). by cbn [andb].
        - destruct (blank li); [by destruct Hb as [_ Hb]; specialize (Hb eq_refl)|].
          by cbn [andb]. }
      destruct (List.filter _ lis) as [|x xs]; cbn [map truth].
      * split; [intros _; split; [done | by apply Hiff] | done].
      * split; [intros H; by apply Ok_append_neq in H|].
        intros [_ H]. by apply Hiff in H.
    + rewrite (visit_blockquote _ _ _ _ Hn). split.
      * intros H. by apply Ok_append_neq in H.
      * intros [H _]. rewrite Hn in H.
        destruct (not_in_by_compute (lit "blockquote") [lit "ul"; lit "ol"]
                    eq_refl H).
    + rewrite (visit_fallback _ _ _ _ Hn). split.
      * intros H. by apply Ok_append_neq in H.
      * intros [H _]. exfalso. apply Hn. unfold block_tags.
        apply elem_of_app. right. rewrite !elem_of_cons in *. tauto.
Qed.

Lemma visit_noop_adds_nothing root_children node :
  visit root_children node = Ok root_children <-> adds_nothing node = true.
Proof.
  rewrite visit_noop_iff. destruct node as [cls text | name attrs contents];
    [done|]. cbn [adds_nothing]. rewrite andb_true_iff, bool_decide_eq_true.
  done.
Qed.

(** X9: when the root stays empty.  A top-level node leaves the root as
    it is exactly when it is a string of whitespace, or a [ul]/[ol] whose
    direct [li] children are all blank; every other node adds a block.
    So the loop returns no block exactly when every top-level node is of
    that kind. *)
Theorem nothing_appended_iff :
  (forall root_children node,
      visit root_children node = Ok root_children
      <-> adds_nothing node = true)
  /\ (forall nodes_in,
        for_top_level nodes_in [] = Ok []
        <-> forallb adds_nothing nodes_in = true).
Proof.
  split; [apply visit_noop_adds_nothing|].
  induction nodes_in as [|node rest IH]; [done|].
  cbn [for_top_level forallb]. rewrite andb_true_iff, <- IH.
  rewrite <- (visit_noop_adds_nothing [] node).
  destruct (visit_appends node) as [out [Hv _]].
  destruct (for_top_level_appends rest) as [out' [Hrest _]].
  rewrite !Hv. cbn. rewrite !Hrest. cbn [app].
  split.
  - intros [= H]. by apply app_eq_nil in H as [-> ->].
  - by intros [[= ->] H].
Qed.

Lemma for_top_level_out (nodes_in : list PageElement) :
  exists out,
    (forall root_children,
        for_top_level nodes_in root_children = Ok (root_children ++ out))
    /\ (length out <= length nodes_in)%nat.
Proof.
  induction nodes_in as [|node rest [out' [Hrest Hlen']]].
  - exists []. split; [intros rc; simpl; by rewrite app_nil_r | done].
  - destruct (visit_appends node) as [out [Hv [Hlen _]]].
    exists (out ++ out'). split.
    + intros rc. cbn [for_top_level]. rewrite Hv. cbn.
      by rewrite Hrest, app_assoc.
    + rewrite length_app. simpl. lia.
Qed.

(** X10: the loop is a homomorphism on the sequence of top-level nodes.
    It never fails, and what it appends for [pre ++ post] is what it
    appends for [pre] followed by what it appends for [post], whatever the
    root already holds: blocks keep the document order and no node
    influences the block of another. *)
Theorem top_level_loop_compositional (pre post : list PageElement) :
  exists out_pre out_post,
    for_top_level pre [] = Ok out_pre
    /\ for_top_level post [] = Ok out_post
    /\ forall root_children,
        for_top_level (pre ++ post) root_children
        = Ok (root_children ++ out_pre ++ out_post).
Proof.
  destruct (for_top_level_out pre) as [out_pre [Hpre _]].
  destruct (for_top_level_out post) as [out_post [Hpost _]].
  exists out_pre, out_post. split; [apply (Hpre [])|].
  split; [apply (Hpost [])|]. intros rc.
  rewrite for_top_level_app, Hpre. cbn [bind].
  by rewrite Hpost, app_assoc.
Qed.

Lemma children_of_container (t : str) (kids : list RichTextNode) :
  children_of (Dict [ (lit "type", FStr t); (lit "children", FList kids) ])
  = kids.
Proof. reflexivity. Qed.

(** X11: the root never holds more blocks than the document has top-level
    nodes: each node gives at most one block. *)
Theorem root_children_bounded BeautifulSoup html_content soup root :
  BeautifulSoup html_content = Ok soup ->
  html_to_richtext BeautifulSoup html_content = Ok root ->
  (length (children_of root) <= length (top_level soup))%nat.
Proof.
  intros Hs Hr. unfold html_to_richtext in Hr.
  destruct (truth html_content); cbn [negb] in Hr.
  - rewrite Hs in Hr. cbn in Hr.
    destruct (for_top_level_out (top_level soup)) as [out [Hout Hlen]].
    rewrite Hout in Hr. injection Hr as <-.
    by rewrite children_of_container.
  - injection Hr as <-. rewrite children_of_container. simpl. lia.
Qed.

Lemma root_children_bounded_witness :
  exists root,
    html_to_richtext
      (fun _ => Ok [ NavigableString PlainString LF;
                     Tag (lit "p") ∅ [NavigableString PlainString (lit "x")];
                     Tag (lit "ul") ∅ [] ])
      (lit "<p>x</p><ul></ul>") = Ok root
    /\ (length (children_of root) <= 3)%nat.
Proof.
  eexists. split; [reflexivity|].
  exact (root_children_bounded
           (fun _ => Ok [ NavigableString PlainString LF;
                          Tag (lit "p") ∅ [NavigableString PlainString (lit "x")];
                          Tag (lit "ul") ∅ [] ])
           (lit "<p>x</p><ul></ul>") _ _ eq_refl eq_refl).
Defined.

(** ** Where the loop starts *)

Lemma find_in_contents name n attrs c cs :
  find_in name (Tag n attrs (c :: cs))
  = if is_tag_named name c then Some c
    else match find_in name c with
         | Some r => Some r
         | None => find_in name (Tag n attrs cs)
         end.
Proof. reflexivity. Qed.

Lemma mentions_tag name n attrs contents :
  mentions name (Tag n attrs contents)
  = is_tag_named name (Tag n attrs contents)
    || existsb (mentions name) contents.
Proof. reflexivity. Qed.

Lemma find_in_none name element :
  find_in name element = None
  <-> existsb (mentions name) (contents_of element) = false.
Proof.
  induction element as [cls text | n attrs contents IH]
    using PageElement_tree_ind; [done|].
  cbn [contents_of]. induction IH as [|c cs Hc _ IHcs]; [done|].
  rewrite find_in_contents. cbn [existsb]. rewrite orb_false_iff.
  destruct c as [cls text | n' attrs' contents'].
  - cbn [is_tag_named find_in mentions]. rewrite IHcs. tauto.
  - rewrite mentions_tag, orb_false_iff. cbn [contents_of] in Hc.
    destruct (is_tag_named name (Tag n' attrs' contents'));
      [split; [done | by intros [[? _] _]]|].
    destruct (find_in name (Tag n' attrs' contents')) eqn:Hf.
    + split; [done|]. intros [[_ H] _]. apply Hc in H. congruence.
    + rewrite IHcs. destruct Hc as [Hc _]. specialize (Hc eq_refl). tauto.
Qed.

Lemma find_in_skip name n attrs pre rest :
  existsb (mentions name) pre = false ->
  find_in name (Tag n attrs (pre ++ rest)) = find_in name (Tag n attrs rest).
Proof.
  induction pre as [|c pre IH]; [done|]. cbn [existsb].
  rewrite orb_false_iff. intros [Hc Hpre].
  rewrite <- app_comm_cons, find_in_contents.
  destruct c as [cls text | n' attrs' contents'].
  - cbn [is_tag_named find_in]. by apply IH.
  - rewrite mentions_tag, orb_false_iff in Hc. destruct Hc as [Hc1 Hc2].
    rewrite Hc1. apply (find_in_none name (Tag n' attrs' contents')) in Hc2.
    rewrite Hc2. by apply IH.
Qed.

(** X12: a document without any tag called "body", which is what the
    parser builds from a fragment, is converted from its own top-level
    nodes. *)
Theorem top_level_without_body (soup : list PageElement) :
  (body soup = None <-> existsb (mentions (lit "body")) soup = false)
  /\ (existsb (mentions (lit "body")) soup = false -> top_level soup = soup).
Proof.
  assert (H : body soup = None
              <-> existsb (mentions (lit "body")) soup = false)
    by apply (find_in_none (lit "body") (document soup)).
  split; [exact H|]. intros Hn. apply H in Hn. unfold top_level.
  by rewrite Hn.
Qed.

Lemma top_level_without_body_witness :
  top_level [ Tag (lit "p") ∅ [NavigableString PlainString (lit "x")];
              NavigableString PlainString (lit "y") ]
  = [ Tag (lit "p") ∅ [NavigableString PlainString (lit "x")];
      NavigableString PlainString (lit "y") ].
Proof.
  exact (proj2 (top_level_without_body
                  [ Tag (lit "p") ∅ [NavigableString PlainString (lit "x")];
                    NavigableString PlainString (lit "y") ]) eq_refl).
Defined.

(** X13: with a body, only the body counts.  When the first tag called
    "body" in document order is a top-level node, or a child of a
    top-level node that is not itself called "body", the loop runs over
    the contents of that body; everything beside it is dropped, and a
    body further in is not looked for. *)
Theorem top_level_with_body pre attrs contents post wrapper wattrs wpre wpost :
  existsb (mentions (lit "body")) pre = false ->
  wrapper <> lit "body" ->
  existsb (mentions (lit "body")) wpre = false ->
  top_level (pre ++ Tag (lit "body") attrs contents :: post) = contents
  /\ top_level
       (pre ++ Tag wrapper wattrs
                 (wpre ++ Tag (lit "body") attrs contents :: wpost) :: post)
     = contents.
Proof.
  intros Hpre Hw Hwpre. unfold top_level, body, document. split.
  - rewrite (find_in_skip _ _ _ _ _ Hpre), find_in_contents.
    cbn [is_tag_named]. by rewrite bool_decide_eq_true_2.
  - rewrite (find_in_skip _ _ _ _ _ Hpre), find_in_contents.
    cbn [is_tag_named]. rewrite (bool_decide_eq_false_2 _ Hw).
    rewrite (find_in_skip _ _ _ _ _ Hwpre), find_in_contents.
    cbn [is_tag_named]. by rewrite bool_decide_eq_true_2.
Qed.

Lemma top_level_with_body_witness :
  top_level
    [ NavigableString SpecialString (lit "DOCTYPE html");
      Tag (lit "html") ∅
        [ Tag (lit "head") ∅ [];
          Tag (lit "body") ∅
            [Tag (lit "p") ∅ [NavigableString PlainString (lit "x")]] ] ]
  = [Tag (lit "p") ∅ [NavigableString PlainString (lit "x")]].
Proof.
  assert (Hw : lit "html" <> lit "body") by discriminate.
  exact (proj2 (top_level_with_body
                  [NavigableString SpecialString (lit "DOCTYPE html")]
                  ∅ [Tag (lit "p") ∅ [NavigableString PlainString (lit "x")]]
                  [] (lit "html") ∅ [Tag (lit "head") ∅ []] []
                  eq_refl Hw eq_refl)).
Defined.

(* ===================================================================== *)
(** * The shape of the whole output                                       *)
(* ===================================================================== *)

Lemma resolve_children_inline_type contents (bold italic : bool) :
  Forall inline_type (resolve_children contents bold italic).
Proof.
  induction contents as [|c cs IH]; [constructor|].
  rewrite resolve_children_cons. apply Forall_app. split; [|done].
  apply Forall_forest_roots, parse_inline_inline_type.
Qed.

Lemma text_node_inline_type value (bold italic : bool) :
  inline_type (_text_node value bold italic).
Proof. left. unfold type_of. by rewrite text_node_type. Qed.

(** A property that holds of each kind of node the converter builds, given
    what the converter guarantees about the children it puts there, holds
    of every node of every tree it returns. *)
Section OutputInvariant.
Variable P : RichTextNode -> Prop.
Hypothesis P_text : forall value (b i : bool), P (_text_node value b i).
Hypothesis P_link : forall url title target kids,
  kids <> [] -> Forall inline_type kids ->
  P (Dict [ (lit "type", FStr (lit "link"));
            (lit "url", of_optional url);
            (lit "title", of_optional title);
            (lit "target", of_optional target);
            (lit "children", FList kids) ]).
Hypothesis P_paragraph : forall kids,
  Forall inline_type kids ->
  P (Dict [ (lit "type", FStr (lit "paragraph"));
            (lit "children", FList kids) ]).
Hypothesis P_heading : forall (i : N) kids,
  1 <= i <= 6 -> Forall inline_type kids ->
  P (Dict [ (lit "type", FStr (lit "heading"));
            (lit "level", FInt (Z.of_N i));
            (lit "children", FList kids) ]).
Hypothesis P_list_item : forall kids,
  kids <> [] -> Forall inline_type kids ->
  P (Dict [ (lit "type", FStr (lit "list-item"));
            (lit "children", FList kids) ]).
Hypothesis P_list : forall list_type list_items,
  list_type ∈ [lit "unordered"; lit "ordered"] ->
  list_items <> [] ->
  Forall (fun n => type_of n = Some (lit "list-item")) list_items ->
  P (Dict [ (lit "type", FStr (lit "list"));
            (lit "listType", FStr list_type);
            (lit "children", FList list_items) ]).
Hypothesis P_quote : forall kids,
  Forall inline_type kids ->
  P (Dict [ (lit "type", FStr (lit "quote"));
            (lit "children",
              FList [ Dict [ (lit "type", FStr (lit "paragraph"));
                             (lit "children", FList kids) ] ]) ]).
Hypothesis P_root : forall blocks,
  Forall block_type blocks ->
  P (Dict [ (lit "type", FStr (lit "root"));
            (lit "children", FList blocks) ]).

Lemma inline_output_invariant element :
  forall b i, Forall P (forest_nodes (_parse_inline element b i)).
Proof.
  induction element as [cls text | name attrs contents IH]
    using PageElement_tree_ind; intros b i.
  - rewrite parse_inline_string. destruct (truth _); [|constructor].
    rewrite forest_nodes_singleton, text_node_nodes.
    constructor; [apply P_text | constructor].
  - rewrite parse_inline_tag. cbn zeta.
    set (b' := bold_below (lower name) b).
    set (i' := italic_below (lower name) i).
    pose proof (resolve_children_invariant (fun _ _ => P) contents b' i' IH)
      as Hkids.
    destruct (bool_decide (lower name = lit "a")); [|exact Hkids].
    rewrite forest_nodes_singleton, nodes_link.
    pose proof (resolve_children_inline_type contents b' i') as Hty.
    destruct (resolve_children contents b' i') as [|k ks] eqn:Hk;
      cbn [truth].
    + constructor.
      * apply P_link; [done|].
        constructor; [apply text_node_inline_type | constructor].
      * rewrite forest_nodes_singleton, text_node_nodes.
        constructor; [apply P_text | constructor].
    + constructor; [by apply P_link | exact Hkids].
Qed.

Lemma Forall_roots_inline element (b i : bool) :
  Forall inline_type (_parse_inline element b i).
Proof. apply Forall_forest_roots, parse_inline_inline_type. Qed.

Lemma container_block_type (t : str) (kids : list RichTextNode) :
  t ∈ [lit "paragraph"; lit "heading"; lit "list"; lit "quote"] ->
  block_type (Dict [ (lit "type", FStr t); (lit "children", FList kids) ]).
Proof. intros Ht. by exists t. Qed.

Lemma visit_output_invariant (node : PageElement) :
  exists out,
    (forall root_children, visit root_children node = Ok (root_children ++ out))
    /\ Forall block_type out
    /\ Forall P (forest_nodes out).
Proof.
  assert (Hpar : lit "paragraph"
                 ∈ [lit "paragraph"; lit "heading"; lit "list"; lit "quote"])
    by (apply (bool_decide_eq_true_1 _); reflexivity).
  destruct node as [cls text | name attrs contents].
  - destruct (truth (strip None text)) eqn:Ht.
    + eexists. split; [intros rc; rewrite visit_string, Ht; reflexivity|].
      split; [constructor; [by apply container_block_type | constructor]|].
      rewrite forest_nodes_singleton, nodes_container.
      constructor.
      * apply P_paragraph.
        constructor; [apply text_node_inline_type | constructor].
      * rewrite forest_nodes_singleton, text_node_nodes.
        constructor; [apply P_text | constructor].
    + exists []. split; [intros rc; by rewrite visit_string, Ht, app_nil_r|].
      split; constructor.
  - destruct (block_tags_cases (lower name))
      as [[i [Hi Hn]] | [Hn | [Hn | [Hn | Hn]]]].
    + eexists. split; [intros rc; by apply visit_heading with (i := i)|].
      split.
      * constructor; [|constructor]. exists (lit "heading").
        split; [reflexivity|]. apply (bool_decide_eq_true_1 _). reflexivity.
      * rewrite forest_nodes_singleton, nodes_heading.
        constructor; [|apply inline_output_invariant].
        apply P_heading; [done | apply Forall_roots_inline].
    + eexists. split; [intros rc; by apply visit_p|].
      split; [constructor; [by apply container_block_type | constructor]|].
      rewrite forest_nodes_singleton, nodes_container.
      constructor; [|apply inline_output_invariant].
      apply P_paragraph, Forall_roots_inline.
    + pose proof (fun rc => visit_list rc name attrs contents Hn) as Hv.
      cbn zeta in Hv.
      remember (List.filter (fun li => truth (_parse_inline li false false))
                  (find_all_direct (lit "li") contents)) as lis eqn:Hlis.
      assert (Hne : Forall (fun li => _parse_inline li false false <> []) lis).
      { rewrite Hlis. clear.
        induction (find_all_direct (lit "li") contents) as [|x xs IH];
          [constructor|].
        cbn [List.filter].
        destruct (_parse_inline x false false) eqn:Hx; cbn [truth]; [done|].
        constructor; [by rewrite Hx | done]. }
      clear Hlis.
      set (item := fun li =>
             Dict [ (lit "type", FStr (lit "list-item"));
                    (lit "children", FList (_parse_inline li false false)) ])
        in *.
      assert (Hitems : Forall P (forest_nodes (map item lis))
                       /\ Forall (fun n => type_of n = Some (lit "list-item"))
                                 (map item lis)).
      { clear Hv. induction Hne as [|x xs Hx _ [IH1 IH2]];
          [split; constructor|].
        cbn [map]. split; [|by constructor].
        rewrite forest_nodes_cons. unfold item at 1.
        rewrite nodes_container, <- app_comm_cons.
        constructor; [by apply P_list_item; [|apply Forall_roots_inline]|].
        apply Forall_app. split; [apply inline_output_invariant | exact IH1]. }
      destruct Hitems as [Hitems Hty].
      destruct lis as [|li lis'].
      * exists []. split; [intros rc; by rewrite Hv, app_nil_r|].
        split; constructor.
      * eexists. split; [intros rc; by rewrite Hv|].
        split.
        -- constructor; [|constructor]. exists (lit "list").
           split; [reflexivity|]. apply (bool_decide_eq_true_1 _). reflexivity.
        -- rewrite forest_nodes_singleton, nodes_list.
           constructor; [|exact Hitems].
           apply P_list; [|done|exact Hty].
           destruct (bool_decide (lower name = lit "ul"));
             apply (bool_decide_eq_true_1 _); reflexivity.
    + eexists. split; [intros rc; by apply visit_blockquote|].
      split.
      * constructor; [|constructor]. exists (lit "quote").
        split; [reflexivity|]. apply (bool_decide_eq_true_1 _). reflexivity.
      * rewrite forest_nodes_singleton, nodes_container.
        constructor; [apply P_quote, Forall_roots_inline|].
        rewrite forest_nodes_singleton, nodes_container.
        constructor; [apply P_paragraph, Forall_roots_inline|].
        apply inline_output_invariant.
    + eexists. split; [intros rc; by apply visit_fallback|].
      split; [constructor; [by apply container_block_type | constructor]|].
      rewrite forest_nodes_singleton, nodes_container.
      constructor; [|apply inline_output_invariant].
      apply P_paragraph, Forall_roots_inline.
Qed.

Lemma for_top_level_output_invariant (nodes_in : list PageElement) :
  exists out,
    (forall root_children,
        for_top_level nodes_in root_children = Ok (root_children ++ out))
    /\ Forall block_type out
    /\ Forall P (forest_nodes out).
Proof.
  induction nodes_in as [|node rest [out' [Hrest [Hb' Hout']]]].
  - exists []. split; [intros rc; simpl; by rewrite app_nil_r|].
    split; constructor.
  - destruct (visit_output_invariant node) as [out [Hv [Hb Hout]]].
    exists (out ++ out'). split; [|split].
    + intros rc. cbn [for_top_level]. rewrite Hv. cbn.
      by rewrite Hrest, app_assoc.
    + by apply Forall_app.
    + rewrite forest_nodes_app. by apply Forall_app.
Qed.

Lemma output_invariant BeautifulSoup html_content root :
  html_to_richtext BeautifulSoup html_content = Ok root ->
  Forall P (nodes root).
Proof.
  unfold html_to_richtext.
  destruct (truth html_content); cbn [negb].
  - destruct (BeautifulSoup html_content) as [soup|e]; [|done]. cbn.
    destruct (for_top_level_output_invariant (top_level soup))
      as [out [Hout [Hb Hk]]].
    rewrite Hout. cbn. intros [= <-]. rewrite nodes_container.
    constructor; [by apply P_root | exact Hk].
  - intros [= <-]. rewrite nodes_container.
    constructor; [apply P_root; constructor | constructor].
Qed.

End OutputInvariant.

Lemma children_of_text_node value (b i : bool) :
  children_of (_text_node value b i) = [].
Proof. by destruct b, i. Qed.

Lemma children_of_link (url title target : option str) kids :
  children_of (Dict [ (lit "type", FStr (lit "link"));
                      (lit "url", of_optional url);
                      (lit "title", of_optional title);
                      (lit "target", of_optional target);
                      (lit "children", FList kids) ]) = kids.
Proof. reflexivity. Qed.

Lemma Forall_allowed (allowed : list str) (Q : RichTextNode -> Prop) kids :
  (forall k, Q k -> exists tk, type_of k = Some tk /\ tk ∈ allowed) ->
  Forall Q kids ->
  Forall (fun k => exists tk, type_of k = Some tk /\ tk ∈ allowed) kids.
Proof. intros HQ H. eapply Forall_impl; [exact H | exact HQ]. Qed.

Lemma inline_type_allowed k :
  inline_type k ->
  exists tk, type_of k = Some tk /\ tk ∈ [lit "text"; lit "link"].
Proof.
  intros [H | H]; eexists; (split; [exact H|]);
    apply (bool_decide_eq_true_1 _); reflexivity.
Qed.

(** X14: the tree obeys the nesting of the schema.  In every tree the
    conversion returns, the root holds only paragraphs, headings, lists
    and quotes; a list holds only list-items; a quote holds only
    paragraphs; paragraphs, headings, list-items and links hold only text
    and link nodes; a text node holds no children. *)
Theorem output_nesting BeautifulSoup html_content root :
  html_to_richtext BeautifulSoup html_content = Ok root ->
  Forall nesting_ok (nodes root).
Proof.
  apply output_invariant.
  - intros value b i. exists (lit "text"). split.
    + unfold type_of. by rewrite text_node_type.
    + rewrite children_of_text_node. constructor.
  - intros url title target kids _ Hk. exists (lit "link").
    split; [reflexivity|]. rewrite children_of_link.
    apply (Forall_allowed _ inline_type); [apply inline_type_allowed | done].
  - intros kids Hk. exists (lit "paragraph"). split; [reflexivity|].
    rewrite children_of_container.
    apply (Forall_allowed _ inline_type); [apply inline_type_allowed | done].
  - intros i kids _ Hk. exists (lit "heading"). split; [reflexivity|].
    change (children_of _) with kids.
    apply (Forall_allowed _ inline_type); [apply inline_type_allowed | done].
  - intros kids _ Hk. exists (lit "list-item"). split; [reflexivity|].
    rewrite children_of_container.
    apply (Forall_allowed _ inline_type); [apply inline_type_allowed | done].
  - intros list_type list_items _ _ Hk. exists (lit "list").
    split; [reflexivity|]. change (children_of _) with list_items.
    eapply Forall_impl; [exact Hk|]. intros k Hty. exists (lit "list-item").
    split; [done|]. apply (bool_decide_eq_true_1 _). reflexivity.
  - intros kids Hk. exists (lit "quote"). split; [reflexivity|].
    rewrite children_of_container. constructor; [|constructor].
    exists (lit "paragraph"). split; [reflexivity|].
    apply (bool_decide_eq_true_1 _). reflexivity.
  - intros blocks Hb. exists (lit "root"). split; [reflexivity|].
    rewrite children_of_container. exact Hb.
Qed.

Lemma output_nesting_witness :
  exists root,
    html_to_richtext
      (fun _ => Ok [ Tag (lit "ul") ∅
                       [ Tag (lit "li") ∅
                           [ Tag (lit "a") ∅
                               [NavigableString PlainString (lit "x")] ] ] ])
      (lit "<ul><li><a>x</a></li></ul>") = Ok root
    /\ Forall nesting_ok (nodes root).
Proof.
  eexists. split; [reflexivity|].
  exact (output_nesting
           (fun _ => Ok [ Tag (lit "ul") ∅
                            [ Tag (lit "li") ∅
                                [ Tag (lit "a") ∅
                                    [NavigableString PlainString (lit "x")] ] ] ])
           (lit "<ul><li><a>x</a></li></ul>") _ eq_refl).
Defined.

(** X15: the containers that may not be empty never are.  In every tree
    the conversion returns, each list, each list-item and each link has at
    least one child, and each quote has exactly one child, a paragraph. *)
Theorem output_containers_not_empty BeautifulSoup html_content root :
  html_to_richtext BeautifulSoup html_content = Ok root ->
  Forall (fun n =>
            (type_of n ∈ [Some (lit "list"); Some (lit "list-item");
                          Some (lit "link")] ->
             children_of n <> [])
            /\ (type_of n = Some (lit "quote") ->
                exists p, children_of n = [p]
                          /\ type_of p = Some (lit "paragraph")))
         (nodes root).
Proof.
  assert (Hno : forall (n : RichTextNode) (t : str),
             type_of n = Some t ->
             t ∉ [lit "list"; lit "list-item"; lit "link"] ->
             type_of n ∈ [Some (lit "list"); Some (lit "list-item");
                          Some (lit "link")] -> False).
  { intros n t -> Ht H. apply Ht. rewrite !elem_of_cons in *.
    destruct H as [[= ->] | [[= ->] | [[= ->] | H]]]; try tauto.
    by apply elem_of_nil in H. }
  apply output_invariant.
  - intros value b i. split; [|unfold type_of; rewrite text_node_type; done].
    intros H. exfalso. apply (Hno _ (lit "text")) in H; [done| |].
    + unfold type_of. by rewrite text_node_type.
    + apply (bool_decide_eq_false_1 _). reflexivity.
  - intros url title target kids Hne _. split; [|other_type].
    intros _. by rewrite children_of_link.
  - intros kids _. split; [|other_type].
    intros H. exfalso. apply (Hno _ (lit "paragraph")) in H; [done|done|].
    apply (bool_decide_eq_false_1 _). reflexivity.
  - intros i kids _ _. split; [|other_type].
    intros H. exfalso. apply (Hno _ (lit "heading")) in H; [done|done|].
    apply (bool_decide_eq_false_1 _). reflexivity.
  - intros kids Hne _. split; [|other_type].
    intros _. by rewrite children_of_container.
  - intros list_type list_items _ Hne _. split; [|other_type].
    intros _. by change (children_of _) with list_items.
  - intros kids _. split.
    + intros H. exfalso. apply (Hno _ (lit "quote")) in H; [done|done|].
      apply (bool_decide_eq_false_1 _). reflexivity.
    + intros _. rewrite children_of_container. by eexists.
  - intros blocks _. split; [|other_type].
    intros H. exfalso. apply (Hno _ (lit "root")) in H; [done|done|].
    apply (bool_decide_eq_false_1 _). reflexivity.
Qed.

Lemma output_containers_not_empty_witness :
  exists root,
    html_to_richtext
      (fun _ => Ok [ Tag (lit "blockquote") ∅ [];
                     Tag (lit "ol") ∅ [Tag (lit "li") ∅ [Tag (lit "a") ∅ []]] ])
      (lit "<blockquote></blockquote><ol><li><a></a></li></ol>") = Ok root
    /\ Forall (fun n =>
                 (type_of n ∈ [Some (lit "list"); Some (lit "list-item");
                               Some (lit "link")] ->
                  children_of n <> [])
                 /\ (type_of n = Some (lit "quote") ->
                     exists p, children_of n = [p]
                               /\ type_of p = Some (lit "paragraph")))
              (nodes root).
Proof.
  eexists. split; [reflexivity|].
  exact (output_containers_not_empty
           (fun _ => Ok [ Tag (lit "blockquote") ∅ [];
                          Tag (lit "ol") ∅
                            [Tag (lit "li") ∅ [Tag (lit "a") ∅ []]] ])
           (lit "<blockquote></blockquote><ol><li><a></a></li></ol>")
           _ eq_refl).
Defined.

(** X16: text nodes anywhere in the output.  In every tree the conversion
    returns, each text node has a string value that neither starts nor
    ends with a newline, and its "bold" and "italic" keys are absent or
    hold [True]. *)
Theorem output_text_nodes BeautifulSoup html_content root :
  html_to_richtext BeautifulSoup html_content = Ok root ->
  Forall (fun n =>
            type_of n = Some (lit "text") ->
            exists value,
              get n (lit "value") = Some (FStr value)
              /\ head value <> Some 10
              /\ last value <> Some 10
              /\ (get n (lit "bold") = None
                  \/ get n (lit "bold") = Some (FBool true))
              /\ (get n (lit "italic") = None
                  \/ get n (lit "italic") = Some (FBool true)))
         (nodes root).
Proof.
  apply output_invariant; try skip_other_type.
  intros value b i _. exists (strip (Some LF) value).
  rewrite text_node_value, text_node_bold, text_node_italic.
  destruct (strip_spec (Some LF) value) as [_ [_ [_ [_ [_ [Hh Hl]]]]]].
  split; [done|]. split; [by apply not_LF_end|]. split; [by apply not_LF_end|].
  split; [destruct b | destruct i]; auto.
Qed.

Lemma output_text_nodes_witness :
  exists root,
    html_to_richtext
      (fun _ => Ok [ Tag (lit "p") ∅
                       [ Tag (lit "b") ∅
                           [NavigableString PlainString
                              (LF ++ lit " x " ++ LF)] ] ])
      (lit "<p><b>..</b></p>") = Ok root
    /\ Forall (fun n =>
                 type_of n = Some (lit "text") ->
                 exists value,
                   get n (lit "value") = Some (FStr value)
                   /\ head value <> Some 10
                   /\ last value <> Some 10
                   /\ (get n (lit "bold") = None
                       \/ get n (lit "bold") = Some (FBool true))
                   /\ (get n (lit "italic") = None
                       \/ get n (lit "italic") = Some (FBool true)))
              (nodes root).
Proof.
  eexists. split; [reflexivity|].
  exact (output_text_nodes
           (fun _ => Ok [ Tag (lit "p") ∅
                            [ Tag (lit "b") ∅
                                [NavigableString PlainString
                                   (LF ++ lit " x " ++ LF)] ] ])
           (lit "<p><b>..</b></p>") _ eq_refl).
Defined.

(** X17: the scalar fields anywhere in the output.  In every tree the
    conversion returns, each heading has an integer level between 1 and
    6, each list has the listType "unordered" or "ordered", and each link
    has its "url", "title" and "target" keys, each holding a string or
    [None]. *)
Theorem output_scalar_fields BeautifulSoup html_content root :
  html_to_richtext BeautifulSoup html_content = Ok root ->
  Forall (fun n =>
            (type_of n = Some (lit "heading") ->
             exists level, get n (lit "level") = Some (FInt level)
                           /\ (1 <= level <= 6)%Z)
            /\ (type_of n = Some (lit "list") ->
                get n (lit "listType") = Some (FStr (lit "unordered"))
                \/ get n (lit "listType") = Some (FStr (lit "ordered")))
            /\ (type_of n = Some (lit "link") ->
                forall key, key ∈ [lit "url"; lit "title"; lit "target"] ->
                  get n key = Some FNone
                  \/ exists s, get n key = Some (FStr s)))
         (nodes root).
Proof.
  apply output_invariant.
  - intros value b i. unfold type_of. rewrite text_node_type.
    by repeat split.
  - intros url title target kids _ _.
    split; [other_type|]. split; [other_type|]. intros _ key Hkey.
    rewrite !elem_of_cons in Hkey.
    destruct Hkey as [-> | [-> | [-> | Hkey]]];
      [destruct url | destruct title | destruct target
      | by apply elem_of_nil in Hkey]; eauto.
  - intros kids _. repeat split; other_type.
  - intros i kids Hi _. split; [|split; other_type].
    intros _. exists (Z.of_N i). split; [reflexivity | lia].
  - intros kids _ _. repeat split; other_type.
  - intros list_type list_items Hlt _ _.
    split; [other_type|]. split; [|other_type]. intros _.
    rewrite !elem_of_cons in Hlt.
    destruct Hlt as [-> | [-> | Hlt]]; [by left | by right |].
    by apply elem_of_nil in Hlt.
  - intros kids _. repeat split; other_type.
  - intros blocks _. repeat split; other_type.
Qed.

Lemma output_scalar_fields_witness :
  exists root,
    html_to_richtext
      (fun _ => Ok [ Tag (lit "h2") ∅
                       [ Tag (lit "a") {[ lit "href" := lit "u" ]}
                           [NavigableString PlainString (lit "t")] ];
                     Tag (lit "ul") ∅
                       [Tag (lit "li") ∅
                          [NavigableString PlainString (lit "i")]] ])
      (lit "<h2><a href=u>t</a></h2><ul><li>i</li></ul>") = Ok root
    /\ Forall (fun n =>
                 (type_of n = Some (lit "heading") ->
                  exists level, get n (lit "level") = Some (FInt level)
                                /\ (1 <= level <= 6)%Z)
                 /\ (type_of n = Some (lit "list") ->
                     get n (lit "listType") = Some (FStr (lit "unordered"))
                     \/ get n (lit "listType") = Some (FStr (lit "ordered")))
                 /\ (type_of n = Some (lit "link") ->
                     forall key, key ∈ [lit "url"; lit "title"; lit "target"] ->
                       get n key = Some FNone
                       \/ exists s, get n key = Some (FStr s)))
              (nodes root).
Proof.
  eexists. split; [reflexivity|].
  exact (output_scalar_fields
           (fun _ => Ok [ Tag (lit "h2") ∅
                            [ Tag (lit "a") {[ lit "href" := lit "u" ]}
                                [NavigableString PlainString (lit "t")] ];
                          Tag (lit "ul") ∅
                            [Tag (lit "li") ∅
                               [NavigableString PlainString (lit "i")]] ])
           (lit "<h2><a href=u>t</a></h2><ul><li>i</li></ul>") _ eq_refl).
Defined.

(* ===================================================================== *)
(** * What the converter does not look at                                 *)
(* ===================================================================== *)

Lemma resolve_children_app pre post (bold italic : bool) :
  resolve_children (pre ++ post) bold italic
  = resolve_children pre bold italic ++ resolve_children post bold italic.
Proof. unfold resolve_children. by rewrite map_app, concat_app. Qed.



(** X19: a tag the resolver does not react to can be replaced by its
    contents.  Among the children of any element, a tag that is none of
    strong, b, em, i, a resolves as if its own children stood in its
    place; this is how a list nested in a list item loses its structure. *)
Theorem unknown_tag_splices name attrs inner pre post (bold italic : bool) :
  lower name ∉ inline_tags ->
  resolve_children (pre ++ Tag name attrs inner :: post) bold italic
  = resolve_children (pre ++ inner ++ post) bold italic.
Proof.
  intros Hn. rewrite !resolve_children_app, resolve_children_cons.
  by rewrite (parse_inline_unwrap _ _ _ _ _ Hn).
Qed.

Lemma unknown_tag_splices_witness :
  (lower (lit "ul") ∉ inline_tags)
  /\ resolve_children
       [ NavigableString PlainString (lit "a");
         Tag (lit "ul") ∅
           [Tag (lit "li") ∅ [NavigableString PlainString (lit "b")]] ]
       false false
     = resolve_children
         [ NavigableString PlainString (lit "a");
           Tag (lit "li") ∅ [NavigableString PlainString (lit "b")] ]
         false false.
Proof.
  assert (Hn : lower (lit "ul") ∉ inline_tags)
    by (apply (bool_decide_eq_false_1 _); reflexivity).
  split; [exact Hn|].
  exact (unknown_tag_splices (lit "ul") ∅
           [Tag (lit "li") ∅ [NavigableString PlainString (lit "b")]]
           [NavigableString PlainString (lit "a")] [] false false Hn).
Defined.
